(** * WaSR training orchestration ([train.py])

    A shallow embedding of [get_arguments], [train_wasr] and [main].

    The script is glue code: it parses the command line, then performs a
    fixed sequence of calls into PyTorch, PyTorch Lightning and the
    [wasr]/[datasets] packages.  The embedding keeps that shape:

    - the parsed [argparse.Namespace] is a finite map from attribute names
      to dynamically typed Python values;
    - every external call is recorded, in program order, in a trace of
      [event]s, and an exception aborts the run (a small trace-and-error
      monad [M]);
    - objects returned by external constructors are records of the
      arguments the script passed (an omitted keyword argument stays
      visible as [Omitted]). *)

From stdpp Require Import gmap strings list fin_maps.
From Stdlib Require Import ZArith Ascii String Permutation Lia.

Open Scope string_scope.

(** ** Python values *)

(** The values an attribute of the namespace can hold.  [PObj] stands for a
    value of a type the script itself never converts to (for instance a
    float produced by an option that [LitModel.add_argparse_args] adds). *)
Inductive pyval :=
| PNone
| PBool (b : bool)
| PInt (n : Z)
| PStr (s : string)
| PObj (type_name repr : string).

#[global] Instance pyval_eq_dec : EqDecision pyval.
Proof. solve_decision. Defined.

(** [bool(v)], as used by [if v:] and [if not v:]. *)
Definition truthy (v : pyval) : bool :=
  match v with
  | PNone => false
  | PBool b => b
  | PInt n => negb (n =? 0)%Z
  | PStr s => negb (String.eqb s "")
  | PObj _ _ => true
  end.

(** [v is not None]. *)
Definition is_not_none (v : pyval) : bool :=
  match v with PNone => false | _ => true end.

(** [v == s] for a string literal [s]. *)
Definition eq_str (v : pyval) (s : string) : bool :=
  match v with PStr s' => String.eqb s' s | _ => false end.

(** A keyword argument of an external call: passed or left out. *)
Inductive kwarg (A : Type) :=
| Omitted
| Given (a : A).
Arguments Omitted {A}.
Arguments Given {A} a.

(** The value a callee sees for a keyword argument with default [d]. *)
Definition kwarg_default {A} (d : A) (k : kwarg A) : A :=
  match k with Omitted => d | Given a => a end.

(** ** Objects built by the external collaborators *)

(** One entry of a dataset manifest: an image and its annotation mask. *)
Definition sample : Type := string * string.

(** [PytorchHubNormalization()]. *)
Inductive Normalization := PytorchHubNormalization.

(** [get_augmentation_transform()]. *)
Inductive Augmentation := get_augmentation_transform.

(** [MaSTr1325Dataset(dataset_file, transform=, normalize_t=,
    include_original=)], together with the samples its manifest lists. *)
Record Dataset := MaSTr1325Dataset {
  dataset_file : pyval;
  transform : kwarg (option Augmentation);
  normalize_t : kwarg Normalization;
  include_original : kwarg bool;
  samples : list sample
}.

(** [DataLoader(dataset, batch_size=, shuffle=, num_workers=, drop_last=)]. *)
Record DataLoader := mkDataLoader {
  dataset : Dataset;
  batch_size : pyval;
  shuffle : kwarg bool;
  num_workers : pyval;
  drop_last : kwarg bool
}.

(** The three model factories of [wasr.models], each with exactly the
    keyword arguments [train_wasr] passes to it. *)
Inductive Model :=
| wasr_deeplabv2_resnet101 (num_classes pretrained imu : pyval)
| wasr_deeplabv2_resnet50 (num_classes imu : pyval)
| deeplabv3_resnet101 (num_classes pretrained : pyval).

(** What [torch.load] can return from a weight file: a tensor, or a mapping
    from names to such values. *)
#[warnings="-register-all"] Inductive blob :=
| Tensor (data : list Z)
| Dict (entries : gmap string blob).

(** A constructed network and the parameters restored into it, if any. *)
Record Module := mkModule {
  arch : Model;
  state : option (gmap string blob)
}.

(** [LitModel(model, num_classes, args)]. *)
Record LitModel := mkLitModel {
  lit_model : Module;
  lit_num_classes : pyval;
  lit_args : gmap string pyval
}.

(** [pl_loggers.TensorBoardLogger(save_dir, name)]. *)
Record TensorBoardLogger := mkTensorBoardLogger {
  save_dir : string;
  name : pyval
}.

(** The two Lightning callbacks the script uses. *)
Inductive Callback :=
| EarlyStopping (monitor patience mode : pyval)
| ModelCheckpoint (save_last : bool) (save_top_k : Z) (monitor mode : pyval).

(** [pl.Trainer(...)] with the keyword arguments of lines 139-147. *)
Record Trainer := mkTrainer {
  logger : TensorBoardLogger;
  gpus : pyval;
  max_epochs : pyval;
  accelerator : string;
  resume_from_checkpoint : pyval;
  callbacks : list Callback;
  sync_batchnorm : bool;
  log_every_n_steps : pyval;
  precision : pyval
}.

(** ** Exceptions and the trace of external calls *)

Inductive exn :=
| AttributeError (attr : string)
| UnboundLocalError (var : string)
| TypeError (what : string)
| DataError (path : pyval)
| IOError (path : pyval)
| WeightLoadError.

Inductive event :=
| EvSeedEverything (requested : pyval) (seed : Z)
| EvNormalization (n : Normalization)
| EvAugmentation (a : Augmentation)
| EvDataset (ds : Dataset)
| EvDataLoader (dl : DataLoader)
| EvModel (m : Model)
| EvPrint (text : string) (v : pyval)
| EvPrintArgs (args : gmap string pyval)
| EvTorchLoad (path : pyval)
| EvLoadStateDict (m : Module) (sd : blob)
| EvLitModel (m : LitModel)
| EvLogger (l : TensorBoardLogger)
| EvLogHyperparams (l : TensorBoardLogger) (args : gmap string pyval)
| EvCallback (c : Callback)
| EvTrainer (t : Trainer)
| EvFit (t : Trainer) (m : LitModel) (train_dl : DataLoader) (val_dl : option DataLoader).

Inductive result (A : Type) :=
| Ok (a : A)
| Raise (e : exn).
Arguments Ok {A} a.
Arguments Raise {A} e.

(** A computation reads the trace so far and returns its result with the
    extended trace; after an exception nothing more is appended. *)
Definition M (A : Type) : Type := list event -> result A * list event.

#[global] Instance M_ret : MRet M := fun A a t => (Ok a, t).

#[global] Instance M_bind : MBind M := fun A B k m t =>
  match m t with
  | (Ok a, t') => k a t'
  | (Raise e, t') => (Raise e, t')
  end.

#[global] Instance M_fmap : FMap M := fun A B f m t =>
  match m t with
  | (Ok a, t') => (Ok (f a), t')
  | (Raise e, t') => (Raise e, t')
  end.

Definition raise {A} (e : exn) : M A := fun t => (Raise e, t).

Definition emit (e : event) : M unit := fun t => (Ok tt, (t ++ [e])%list).

(** [args.name]. *)
Definition getattr (args : gmap string pyval) (attr : string) : M pyval :=
  match args !! attr with
  | Some v => mret v
  | None => raise (AttributeError attr)
  end.

(** Reading the local variable [model], which lines 110-115 leave unbound
    when no branch is taken. *)
Definition local {A} (var : string) (v : option A) : M A :=
  match v with
  | Some a => mret a
  | None => raise (UnboundLocalError var)
  end.

(** ** Strings, as [argparse] and [int()] inspect them

    Strings are sequences of 8-bit characters; the digit and white-space
    classes below are the ASCII ones. *)

Definition is_digit (c : ascii) : bool :=
  let n := nat_of_ascii c in (48 <=? n)%nat && (n <=? 57)%nat.

Definition is_space (c : ascii) : bool :=
  let n := nat_of_ascii c in ((9 <=? n)%nat && (n <=? 13)%nat) || (n =? 32)%nat.

Definition is_dash (c : ascii) : bool := Ascii.eqb c "-".

(** [s.startswith(p)]. *)
Fixpoint starts_with (p s : string) : bool :=
  match p, s with
  | EmptyString, _ => true
  | String a p', String b s' => Ascii.eqb a b && starts_with p' s'
  | String _ _, EmptyString => false
  end.

(** [c in s]. *)
Fixpoint contains_char (c : ascii) (s : string) : bool :=
  match s with
  | EmptyString => false
  | String a s' => Ascii.eqb a c || contains_char c s'
  end.

(** [s.split('=', 1)] when ['=' in s]. *)
Fixpoint split_eq (s : string) : option (string * string) :=
  match s with
  | EmptyString => None
  | String c s' =>
      if Ascii.eqb c "=" then Some (EmptyString, s')
      else match split_eq s' with
           | Some (l, r) => Some (String c l, r)
           | None => None
           end
  end.

Fixpoint all_digits (s : string) : bool :=
  match s with
  | EmptyString => true
  | String c s' => is_digit c && all_digits s'
  end.

(** The first and second character being (or not being) a prefix
    character of the parser, which is ['-'] only. *)
Definition first_is_dash (s : string) : bool :=
  match s with String c _ => is_dash c | EmptyString => false end.

Definition second_is_dash (s : string) : bool :=
  match s with String _ (String c _) => is_dash c | _ => false end.

(** [s[:2]] and [s[2:]]. *)
Definition take2 (s : string) : string :=
  match s with String a (String b _) => String a (String b EmptyString) | _ => s end.

Definition drop2 (s : string) : string :=
  match s with String _ (String _ r) => r | _ => EmptyString end.

(** The digits of [s] up to the first ['.'], and what follows it. *)
Fixpoint split_dot (s : string) : option (string * string) :=
  match s with
  | EmptyString => None
  | String c s' =>
      if Ascii.eqb c "." then Some (EmptyString, s')
      else match split_dot s' with
           | Some (l, r) => Some (String c l, r)
           | None => None
           end
  end.

(** Removing one final newline: [$] of a regular expression also matches
    just before it. *)
Fixpoint chop_newline (s : string) : string :=
  match s with
  | EmptyString => EmptyString
  | String c EmptyString => if Ascii.eqb c "010" then EmptyString else s
  | String c s' => String c (chop_newline s')
  end.

(** [_negative_number_matcher]: [^-\d+$|^-\d*\.\d+$]. *)
Definition negative_number_like (s : string) : bool :=
  match chop_newline s with
  | String c body =>
      is_dash c &&
      ((negb (String.eqb body "") && all_digits body)
       || match split_dot body with
          | Some (l, r) => all_digits l && negb (String.eqb r "") && all_digits r
          | None => false
          end)
  | EmptyString => false
  end.

(** *** [int(s)] *)

Fixpoint lstrip (s : string) : string :=
  match s with
  | String c s' => if is_space c then lstrip s' else s
  | EmptyString => EmptyString
  end.

(** Dropping trailing white space: [None] stands for a string that is all
    white space. *)
Fixpoint rstrip_aux (s : string) : option string :=
  match s with
  | EmptyString => None
  | String c s' =>
      match rstrip_aux s' with
      | Some r => Some (String c r)
      | None => if is_space c then None else Some (String c EmptyString)
      end
  end.

Definition strip (s : string) : string :=
  match rstrip_aux (lstrip s) with Some r => r | None => EmptyString end.

(** The value of a run of decimal digits in which single underscores may
    separate digits; [after_digit] tells whether the previous character
    was a digit (an underscore is legal only then, and not at the end). *)
Fixpoint digits_value (s : string) (acc : Z) (after_digit : bool) : option Z :=
  match s with
  | EmptyString => if after_digit then Some acc else None
  | String c s' =>
      if is_digit c then
        digits_value s' (10 * acc + (Z.of_nat (nat_of_ascii c) - 48))%Z true
      else if Ascii.eqb c "_" && after_digit then
        match s' with
        | String d _ => if is_digit d then digits_value s' acc false else None
        | EmptyString => None
        end
      else None
  end.

(** [int(s)] for a string: optional white space around an optionally
    signed decimal literal; [None] is [ValueError]. *)
Definition py_int (s : string) : option Z :=
  match strip s with
  | String c body =>
      if Ascii.eqb c "-" then Z.opp <$> digits_value body 0 false
      else if Ascii.eqb c "+" then digits_value body 0 false
      else digits_value (String c body) 0 false
  | EmptyString => None
  end.

(** ** The [argparse] parser of [get_arguments]

    [argparse] is modelled as CPython 3.11 implements it, restricted to
    what this parser uses: optional arguments only, the prefix character
    ['-'], abbreviations allowed, the actions [store], [store_true] and
    [help]. *)

Inductive action_kind := store | store_true | help.

(** The [type=] of an argument.  [type_custom] is a converter declared
    outside this file (by [LitModel.add_argparse_args]); [None] from a
    converter stands for the [ValueError] it raises. *)
Inductive arg_type :=
| type_none
| type_str
| type_int
| type_bool
| type_custom (type_name : string) (conv : string -> option pyval).

Record Action := mkAction {
  option_strings : list string;
  dest : option string;
  kind : action_kind;
  type : arg_type;
  default : pyval;
  choices : option (list pyval);
  required : bool
}.

(** The attribute an option string is stored under: the leading dashes
    are dropped and the remaining ones become underscores. *)
Fixpoint lstrip_dashes (s : string) : string :=
  match s with
  | String c s' => if is_dash c then lstrip_dashes s' else s
  | EmptyString => EmptyString
  end.

Fixpoint dashes_to_underscores (s : string) : string :=
  match s with
  | String c s' => String (if is_dash c then "_"%char else c) (dashes_to_underscores s')
  | EmptyString => EmptyString
  end.

Definition dest_of (option_string : string) : string :=
  dashes_to_underscores (lstrip_dashes option_string).

(** [parser.add_argument(flag, action=, type=, default=, choices=,
    required=)]; the default of a [store_true] is [False]. *)
Definition add_argument (flag : string) (k : action_kind) (ty : arg_type)
    (dflt : pyval) (chs : option (list pyval)) (req : bool) : Action :=
  {| option_strings := [flag]; dest := Some (dest_of flag); kind := k; type := ty;
     default := dflt; choices := chs; required := req |}.

(** The [-h]/[--help] action every [ArgumentParser] starts with; it stores
    nothing. *)
Definition help_action : Action :=
  {| option_strings := ["-h"; "--help"]; dest := None; kind := help; type := type_none;
     default := PNone; choices := None; required := false |}.

(** Module constants, lines 16-28. *)
Definition DEVICE_BATCH_SIZE : pyval := PInt 3.
Definition NUM_CLASSES : pyval := PInt 3.
Definition PATIENCE : pyval := PNone.
Definition LOG_STEPS : pyval := PInt 20.
Definition NUM_WORKERS : pyval := PInt 1.
Definition NUM_GPUS : pyval := PInt (-1).
Definition RANDOM_SEED : pyval := PNone.
Definition OUTPUT_DIR : pyval := PStr "output".
Definition PRETRAINED_DEEPLAB : pyval := PBool true.
Definition PRECISION : pyval := PInt 32.
Definition MODEL : pyval := PStr "wasr_resnet101".
Definition MONITOR_VAR : pyval := PStr "val/iou/obstacle".
Definition MONITOR_VAR_MODE : pyval := PStr "max".

(** The arguments declared at lines 38-80, in order. *)
Definition base_actions : list Action :=
  [ help_action;
    add_argument "--train-file" store type_str PNone None false;
    add_argument "--val-file" store type_str PNone None false;
    add_argument "--batch-size" store type_int DEVICE_BATCH_SIZE None false;
    add_argument "--validation" store_true type_none (PBool false) None false;
    add_argument "--num-classes" store type_int NUM_CLASSES None false;
    add_argument "--patience" store type_int PATIENCE None false;
    add_argument "--log-steps" store type_int LOG_STEPS None false;
    add_argument "--gpus" store type_none NUM_GPUS None false;
    add_argument "--workers" store type_int NUM_WORKERS None false;
    add_argument "--random-seed" store type_int RANDOM_SEED None false;
    add_argument "--pretrained" store type_bool PRETRAINED_DEEPLAB None false;
    add_argument "--output-dir" store type_str OUTPUT_DIR None false;
    add_argument "--model-name" store type_str PNone None true;
    add_argument "--pretrained-weights" store type_str PNone None false;
    add_argument "--imu" store_true type_none (PBool false) None false;
    add_argument "--model" store type_str MODEL
      (Some [PStr "wasr_resnet101"; PStr "wasr_resnet50"; PStr "deeplab"]) false;
    add_argument "--monitor-metric" store type_str MONITOR_VAR None false;
    add_argument "--monitor-metric-mode" store type_str MONITOR_VAR_MODE
      (Some [PStr "min"; PStr "max"]) false;
    add_argument "--no-augmentation" store_true type_none (PBool false) None false;
    add_argument "--precision" store type_int PRECISION (Some [PInt 16; PInt 32]) false;
    add_argument "--resume-from" store type_str PNone None false ].

(** How a run of the parser ends: a namespace, the help text and exit
    status 0, or a usage error and exit status 2.  [ConflictingOption] is
    the [ArgumentError] that [add_argument] raises while the parser is
    being built. *)
Inductive parse_error :=
| ConflictingOption (option_string : string)
| AmbiguousOption (arg : string)
| ExpectedOneArgument (option_string : string)
| IgnoredExplicitArgument (option_string explicit : string)
| InvalidValue (option_string arg : string)
| InvalidChoice (option_string : string) (value : pyval)
| RequiredMissing (names : list string)
| UnrecognizedArguments (args : list string).

Inductive outcome :=
| Parsed (ns : gmap string pyval)
| HelpExit
| ErrorExit (e : parse_error).

(** [type_func(arg_string)] of [_get_value]. *)
Definition convert (ty : arg_type) (s : string) : option pyval :=
  match ty with
  | type_none => Some (PStr s)
  | type_str => Some (PStr s)
  | type_int => PInt <$> py_int s
  | type_bool => Some (PBool (truthy (PStr s)))
  | type_custom _ conv => conv s
  end.

(** [_check_value]. *)
Definition check_value (a : Action) (v : pyval) : bool :=
  match choices a with
  | Some chs => bool_decide (v ∈ chs)
  | None => true
  end.

(** An action is identified by its position in [parser._actions]. *)
Definition action_ref : Type := nat * Action.

(** How [_parse_optional] classifies one argument string: a plain
    argument (['A']), or an option (['O']) with the action it resolved to
    (none for an unknown option), the option string and the explicit
    argument after ['=']. *)
Inductive arg_class :=
| cls_A
| cls_O (act : option action_ref) (option_string : string) (explicit_arg : option string).

(** The state of [_parse_known_args]: the namespace, the actions seen, and
    the argument strings nothing consumed. *)
Record pstate := mkPstate {
  ns : gmap string pyval;
  seen : list nat;
  extras : list string
}.

(** One [(action, args, option_string)] tuple of [consume_optional]. *)
Definition action_tuple : Type := action_ref * option string * string.

(** The next step of a loop that can end the parse early. *)
Inductive step (A : Type) :=
| Continue (a : A)
| Stop (o : outcome).
Arguments Continue {A} a.
Arguments Stop {A} o.

Section Parser.

(** [parser._actions]. *)
Variable actions : list Action.

(** [parser._option_string_actions], in insertion order. *)
Definition option_table : list (string * action_ref) :=
  List.concat (imap (fun i a => map (fun o => (o, (i, a))) (option_strings a)) actions).

Definition find_action (s : string) : option action_ref :=
  snd <$> List.find (fun e => String.eqb (fst e) s) option_table.

Definition has_negative_number_optionals : bool :=
  existsb (fun e => negative_number_like (fst e)) option_table.

(** [_get_option_tuples], for an argument string of at least two
    characters that starts with a dash. *)
Definition get_option_tuples (s : string) : list (action_ref * string * option string) :=
  if second_is_dash s then
    let '(option_prefix, explicit_arg) :=
      match split_eq s with
      | Some (p, e) => (p, Some e)
      | None => (s, None)
      end in
    omap (fun e : string * action_ref =>
            if starts_with option_prefix (fst e)
            then Some (snd e, fst e, explicit_arg) else None) option_table
  else
    omap (fun e : string * action_ref =>
            if String.eqb (fst e) (take2 s) then Some (snd e, fst e, Some (drop2 s))
            else if starts_with s (fst e) then Some (snd e, fst e, None)
            else None) option_table.

(** [_parse_optional]. *)
Definition parse_optional (s : string) : parse_error + arg_class :=
  if String.eqb s "" then inr cls_A
  else if negb (first_is_dash s) then inr cls_A
  else
    match find_action s with
    | Some a => inr (cls_O (Some a) s None)
    | None =>
        if (String.length s =? 1)%nat then inr cls_A
        else
          match
            match split_eq s with
            | Some (o, e) =>
                match find_action o with
                | Some a => Some (a, o, e)
                | None => None
                end
            | None => None
            end
          with
          | Some (a, o, e) => inr (cls_O (Some a) o (Some e))
          | None =>
              match get_option_tuples s with
              | _ :: _ :: _ => inl (AmbiguousOption s)
              | [(a, o, e)] => inr (cls_O (Some a) o e)
              | [] =>
                  if negative_number_like s && negb has_negative_number_optionals
                  then inr cls_A
                  else if contains_char " " s then inr cls_A
                  else inr (cls_O None s None)
              end
          end
    end.

(** The first loop of [_parse_known_args], for the argument strings in
    front of the first ["--"]. *)
Fixpoint classify (args : list string) : parse_error + list (string * arg_class) :=
  match args with
  | [] => inr []
  | s :: rest =>
      match parse_optional s with
      | inl err => inl err
      | inr c =>
          match classify rest with
          | inl err => inl err
          | inr cs => inr ((s, c) :: cs)
          end
      end
  end.

(** The argument strings in front of the first ["--"], and the rest
    from that ["--"] on. *)
Fixpoint split_dashdash (args : list string) : list string * list string :=
  match args with
  | [] => ([], [])
  | s :: rest =>
      if String.eqb s "--" then ([], s :: rest)
      else let '(pre, post) := split_dashdash rest in (s :: pre, post)
  end.

(** The [while True] loop of [consume_optional] for an option that came
    with an explicit argument [e]: the tuples collected, and the option
    that still expects the following argument string, if any. *)
Fixpoint match_explicit (a : action_ref) (o e : string)
    : parse_error + (list action_tuple * option (action_ref * string)) :=
  match kind (snd a) with
  | store => inr ([(a, Some e, o)], None)
  | _ =>
      if negb (second_is_dash o) && negb (String.eqb e "") then
        match e with
        | String c e' =>
            let o' := String "-" (String c EmptyString) in
            match find_action o' with
            | Some a' =>
                match e' with
                | EmptyString =>
                    match kind (snd a') with
                    | store => inr ([(a, None, o)], Some (a', o'))
                    | _ => inr ([(a, None, o); (a', None, o')], None)
                    end
                | String _ _ =>
                    match match_explicit a' o' e' with
                    | inr (ts, p) => inr ((a, None, o) :: ts, p)
                    | inl err => inl err
                    end
                end
            | None => inl (IgnoredExplicitArgument o e)
            end
        | EmptyString => inl (IgnoredExplicitArgument o e)
        end
      else inl (IgnoredExplicitArgument o e)
  end.

Definition setattr (d : option string) (v : pyval) (n : gmap string pyval)
    : gmap string pyval :=
  match d with Some d => <[d := v]> n | None => n end.

(** [take_action]: note the action as seen, convert and check the
    argument, run the action. *)
Definition take_action (t : action_tuple) (st : pstate) : step pstate :=
  let '(a, arg, o) := t in
  let seen' := fst a :: seen st in
  match kind (snd a) with
  | help => Stop HelpExit
  | store_true =>
      Continue {| ns := setattr (dest (snd a)) (PBool true) (ns st);
                  seen := seen'; extras := extras st |}
  | store =>
      match arg with
      | Some s =>
          match convert (type (snd a)) s with
          | None => Stop (ErrorExit (InvalidValue o s))
          | Some v =>
              if check_value (snd a) v
              then Continue {| ns := setattr (dest (snd a)) v (ns st);
                               seen := seen'; extras := extras st |}
              else Stop (ErrorExit (InvalidChoice o v))
          end
      | None => Stop (ErrorExit (ExpectedOneArgument o))
      end
  end.

Fixpoint take_actions (ts : list action_tuple) (st : pstate) : step pstate :=
  match ts with
  | [] => Continue st
  | t :: ts' =>
      match take_action t st with
      | Continue st' => take_actions ts' st'
      | Stop o => Stop o
      end
  end.

(** [_get_action_name] of an optional. *)
Definition action_name (a : Action) : string :=
  String.concat "/" (option_strings a).

(** The loop over [self._actions] after the arguments are consumed:
    collect the required actions that were not seen and convert the
    string defaults that are still in place. *)
Fixpoint check_actions (acts : list action_ref) (seen_actions : list nat)
    (n : gmap string pyval) (missing : list string)
    : parse_error + (gmap string pyval * list string) :=
  match acts with
  | [] => inr (n, missing)
  | (i, a) :: rest =>
      if bool_decide (i ∈ seen_actions) then check_actions rest seen_actions n missing
      else if required a then
        check_actions rest seen_actions n (missing ++ [action_name a])%list
      else
        match default a, dest a with
        | PStr s, Some d =>
            if bool_decide (n !! d = Some (PStr s)) then
              match convert (type a) s with
              | Some v => check_actions rest seen_actions (<[d := v]> n) missing
              | None => inl (InvalidValue (action_name a) s)
              end
            else check_actions rest seen_actions n missing
        | _, _ => check_actions rest seen_actions n missing
        end
  end.

(** The end of [_parse_known_args] and of [parse_args]; [trailing] are
    the argument strings from the first ["--"] on. *)
Definition finish (trailing : list string) (st : pstate) : outcome :=
  match check_actions (imap pair actions) (seen st) (ns st) [] with
  | inl err => ErrorExit err
  | inr (n, missing) =>
      match missing with
      | _ :: _ => ErrorExit (RequiredMissing missing)
      | [] =>
          match (extras st ++ trailing)%list with
          | _ :: _ => ErrorExit (UnrecognizedArguments (extras st ++ trailing))
          | [] => Parsed n
          end
      end
  end.

Definition add_extra (s : string) (st : pstate) : pstate :=
  {| ns := ns st; seen := seen st; extras := (extras st ++ [s])%list |}.

(** The main loop of [_parse_known_args].  The parser declares no
    positional argument, so a plain argument that no option takes, and
    an unknown option, are left over. *)
Fixpoint consume (trailing : list string) (toks : list (string * arg_class))
    (st : pstate) : outcome :=
  match toks with
  | [] => finish trailing st
  | (s, cls_A) :: rest => consume trailing rest (add_extra s st)
  | (s, cls_O None _ _) :: rest => consume trailing rest (add_extra s st)
  | (s, cls_O (Some a) o explicit) :: rest =>
      match
        match explicit with
        | Some e => match_explicit a o e
        | None =>
            match kind (snd a) with
            | store => inr ([], Some (a, o))
            | _ => inr ([(a, None, o)], None)
            end
        end
      with
      | inl err => ErrorExit err
      | inr (ts, None) =>
          match take_actions ts st with
          | Stop out => out
          | Continue st' => consume trailing rest st'
          end
      | inr (ts, Some (a', o')) =>
          match rest with
          | (v, cls_A) :: rest' =>
              match take_actions (ts ++ [(a', Some v, o')]) st with
              | Stop out => out
              | Continue st' => consume trailing rest' st'
              end
          | _ => ErrorExit (ExpectedOneArgument o')
          end
      end
  end.

(** The defaults [parse_known_args] starts from: for each attribute, the
    default of the first action that stores into it. *)
Definition initial_namespace : gmap string pyval :=
  foldl (fun n a =>
           match dest a with
           | Some d => match n !! d with Some _ => n | None => <[d := default a]> n end
           | None => n
           end) ∅ actions.

(** [parser.parse_args(args)]. *)
Definition parse_args (args : list string) : outcome :=
  let '(pre, trailing) := split_dashdash args in
  match classify pre with
  | inl err => ErrorExit err
  | inr toks =>
      consume trailing toks {| ns := initial_namespace; seen := []; extras := [] |}
  end.

(** An option string declared twice: [add_argument] raises on the
    second declaration. *)
Fixpoint first_conflict (declared : list string) (todo : list string) : option string :=
  match todo with
  | [] => None
  | o :: rest =>
      if bool_decide (o ∈ declared) then Some o
      else first_conflict (o :: declared) rest
  end.

End Parser.

(** [get_arguments(input_args)], lines 32-86.  [lit_actions] are the
    arguments that [LitModel.add_argparse_args(parser)] (line 82, defined
    in [wasr/train.py]) adds after the script's own. *)
Definition get_arguments (lit_actions : list Action) (input_args : list string) : outcome :=
  let actions := (base_actions ++ lit_actions)%list in
  match first_conflict [] (map fst (option_table actions)) with
  | Some o => ErrorExit (ConflictingOption o)
  | None => parse_args actions input_args
  end.

(** ** The environment of a run

    What the script cannot decide by itself: the seed Lightning draws when
    it is given none, the manifest and weight files that can be read,
    which parameter mappings fit which architecture, the order a shuffling
    sampler draws, and the arguments [LitModel] adds to the parser. *)
Record World := mkWorld {
  fresh_seed : Z;
  manifests : gmap string (list sample);
  weight_files : gmap string blob;
  compatible : Model -> gmap string blob -> bool;
  shuffle_order : list sample -> list sample;
  lit_actions : list Action
}.

(** ** The external calls *)

(** Modelled from the spec: [pl.seed_everything] is not under src/.  The
    seed is an integer; if it is not supplied, one is generated; the
    function returns the seed in force.  A value that is not an integer
    counts as not supplied. *)
Definition seed_everything (w : World) (seed : pyval) : M Z :=
  let s := match seed with PInt n => n | _ => fresh_seed w end in
  _ ← emit (EvSeedEverything seed s);
  mret s.

Definition new_normalization : M Normalization :=
  _ ← emit (EvNormalization PytorchHubNormalization);
  mret PytorchHubNormalization.

Definition new_augmentation : M Augmentation :=
  _ ← emit (EvAugmentation get_augmentation_transform);
  mret get_augmentation_transform.

(** Modelled from the spec: [MaSTr1325Dataset] is defined in
    [datasets/mastr.py], not under src/.  Constructing a Dataset fails
    with [DataError] if the manifest path is missing or unreadable;
    otherwise the Dataset holds the samples the manifest lists. *)
Definition new_dataset (w : World) (file : pyval)
    (tr : kwarg (option Augmentation)) (norm : kwarg Normalization)
    (orig : kwarg bool) : M Dataset :=
  match file with
  | PStr path =>
      match manifests w !! path with
      | Some l =>
          let ds := MaSTr1325Dataset file tr norm orig l in
          _ ← emit (EvDataset ds);
          mret ds
      | None => raise (DataError file)
      end
  | _ => raise (DataError file)
  end.

Definition new_dataloader (ds : Dataset) (bs : pyval) (sh : kwarg bool)
    (workers : pyval) (dl : kwarg bool) : M DataLoader :=
  let l := mkDataLoader ds bs sh workers dl in
  _ ← emit (EvDataLoader l);
  mret l.

Definition new_model (m : Model) : M Module :=
  _ ← emit (EvModel m);
  mret (mkModule m None).

(** [torch.load(path, map_location='cpu')]. *)
Definition torch_load (w : World) (path : pyval) : M blob :=
  _ ← emit (EvTorchLoad path);
  match path with
  | PStr p =>
      match weight_files w !! p with
      | Some b => mret b
      | None => raise (IOError path)
      end
  | _ => raise (IOError path)
  end.

(** [key in state_dict]: membership among the keys of a mapping. *)
Definition contains_key (key : string) (state_dict : blob) : M bool :=
  match state_dict with
  | Dict d => mret (bool_decide (is_Some (d !! key)))
  | Tensor _ => raise (TypeError "argument of 'in'")
  end.

(** [state_dict[key]]. *)
Definition subscript (state_dict : blob) (key : string) : M blob :=
  match state_dict with
  | Dict d =>
      match d !! key with
      | Some v => mret v
      | None => raise (TypeError "KeyError")
      end
  | Tensor _ => raise (TypeError "subscript")
  end.

(** Modelled from the spec: [load_state_dict] belongs to the model
    classes, which are not under src/.  Restoration fails with
    [WeightLoadError] if the parameter names are incompatible with the
    constructed architecture; there is no partial load.  What is loaded
    must be a mapping. *)
Definition load_state_dict (w : World) (m : Module) (sd : blob) : M Module :=
  _ ← emit (EvLoadStateDict m sd);
  match sd with
  | Dict d =>
      if compatible w (arch m) d then mret (mkModule (arch m) (Some d))
      else raise WeightLoadError
  | Tensor _ => raise WeightLoadError
  end.

Fixpoint ends_with_slash (s : string) : bool :=
  match s with
  | EmptyString => false
  | String c EmptyString => Ascii.eqb c "/"
  | String _ s' => ends_with_slash s'
  end.

(** [os.path.join(a, b)] for a relative [b]. *)
Definition os_path_join (a : pyval) (b : string) : M string :=
  match a with
  | PStr s =>
      mret (if String.eqb s "" || ends_with_slash s then s ++ b else s ++ "/" ++ b)
  | _ => raise (TypeError "os.path.join")
  end.

Definition new_callback (c : Callback) : M Callback :=
  _ ← emit (EvCallback c);
  mret c.

(** ** [train_wasr], lines 88-148 *)

(** Line 90: use or create the random seed, and store it in [args]. *)
Definition resolve_seed (w : World) (args : gmap string pyval) : M (gmap string pyval) :=
  requested ← getattr args "random_seed";
  seed ← seed_everything w requested;
  mret (<["random_seed" := PInt seed]> args).

(** Lines 92-108: the datasets and their loaders. *)
Definition build_loaders (w : World) (args : gmap string pyval)
    : M (DataLoader * option DataLoader) :=
  normalize_t ← new_normalization;
  no_augmentation ← getattr args "no_augmentation";
  transform ← (if negb (truthy no_augmentation)
               then Some <$> new_augmentation
               else mret None);
  train_file ← getattr args "train_file";
  train_ds ← new_dataset w train_file (Given transform) (Given normalize_t) Omitted;
  batch_size ← getattr args "batch_size";
  workers ← getattr args "workers";
  train_dl ← new_dataloader train_ds batch_size (Given true) workers (Given true);
  validation ← getattr args "validation";
  val_dl ← (if truthy validation then
              val_file ← getattr args "val_file";
              val_ds ← new_dataset w val_file Omitted (Given normalize_t) (Given true);
              batch_size ← getattr args "batch_size";
              workers ← getattr args "workers";
              Some <$> new_dataloader val_ds batch_size Omitted workers Omitted
            else mret None);
  mret (train_dl, val_dl).

(** Lines 110-115: the model; no branch binds [model] for another name. *)
Definition build_model (args : gmap string pyval) : M (option Module) :=
  model ← getattr args "model";
  if eq_str model "wasr_resnet101" then
    num_classes ← getattr args "num_classes";
    pretrained ← getattr args "pretrained";
    imu ← getattr args "imu";
    Some <$> new_model (wasr_deeplabv2_resnet101 num_classes pretrained imu)
  else if eq_str model "wasr_resnet50" then
    num_classes ← getattr args "num_classes";
    imu ← getattr args "imu";
    Some <$> new_model (wasr_deeplabv2_resnet50 num_classes imu)
  else if eq_str model "deeplab" then
    num_classes ← getattr args "num_classes";
    pretrained ← getattr args "pretrained";
    Some <$> new_model (deeplabv3_resnet101 num_classes pretrained)
  else mret None.

(** Lines 120-124: load a blob into the model, unwrapping a checkpoint. *)
Definition load_weights (w : World) (model : option Module) (state_dict : blob)
    : M (option Module) :=
  is_checkpoint ← contains_key "model" state_dict;
  if (is_checkpoint : bool) then
    m ← local "model" model;
    weights ← subscript state_dict "model";
    Some <$> load_state_dict w m weights
  else
    m ← local "model" model;
    Some <$> load_state_dict w m state_dict.

(** Lines 117-124. *)
Definition restore_weights (w : World) (args : gmap string pyval)
    (model : option Module) : M (option Module) :=
  pretrained_weights ← getattr args "pretrained_weights";
  if is_not_none pretrained_weights then
    _ ← emit (EvPrint "Loading weights from: " pretrained_weights);
    state_dict ← torch_load w pretrained_weights;
    load_weights w model state_dict
  else mret model.

(** Lines 132-137. *)
Definition build_callbacks (args : gmap string pyval) : M (list Callback) :=
  validation ← getattr args "validation";
  if truthy validation then
    patience ← getattr args "patience";
    early ← (if is_not_none patience then
               monitor_metric ← getattr args "monitor_metric";
               patience ← getattr args "patience";
               monitor_metric_mode ← getattr args "monitor_metric_mode";
               c ← new_callback (EarlyStopping monitor_metric patience monitor_metric_mode);
               mret [c]
             else mret []);
    monitor_metric ← getattr args "monitor_metric";
    monitor_metric_mode ← getattr args "monitor_metric_mode";
    c ← new_callback (ModelCheckpoint true 1 monitor_metric monitor_metric_mode);
    mret (early ++ [c])%list
  else mret [].

(** Lines 126-148, once the loaders and the raw model exist. *)
Definition fit_model (args : gmap string pyval)
    (loaders : DataLoader * option DataLoader) (model : option Module) : M unit :=
  m ← local "model" model;
  num_classes ← getattr args "num_classes";
  let lit := mkLitModel m num_classes args in
  _ ← emit (EvLitModel lit);
  output_dir ← getattr args "output_dir";
  logs_path ← os_path_join output_dir "logs";
  model_name ← getattr args "model_name";
  let logger := mkTensorBoardLogger logs_path model_name in
  _ ← emit (EvLogger logger);
  _ ← emit (EvLogHyperparams logger args);
  callbacks ← build_callbacks args;
  gpus ← getattr args "gpus";
  epochs ← getattr args "epochs";
  resume_from ← getattr args "resume_from";
  log_steps ← getattr args "log_steps";
  precision ← getattr args "precision";
  let trainer := mkTrainer logger gpus epochs "ddp" resume_from callbacks true
                   log_steps precision in
  _ ← emit (EvTrainer trainer);
  emit (EvFit trainer lit (fst loaders) (snd loaders)).

Definition train_wasr (w : World) (args : gmap string pyval) : M unit :=
  args ← resolve_seed w args;
  loaders ← build_loaders w args;
  model ← build_model args;
  model ← restore_weights w args model;
  fit_model args loaders model.

(** ** [main], lines 151-155 *)

(** How the process ends: [main] returns, an exception escapes, or the
    parser exits. *)
Inductive termination :=
| Returned
| Uncaught (e : exn)
| ParserExit (o : outcome).

Definition main (w : World) (argv : list string) : termination * list event :=
  match get_arguments (lit_actions w) argv with
  | Parsed args =>
      match (_ ← emit (EvPrintArgs args); train_wasr w args) [] with
      | (Ok _, t) => (Returned, t)
      | (Raise e, t) => (Uncaught e, t)
      end
  | o => (ParserExit o, [])
  end.

(** ** Iterating a loader *)

(** Modelled from the spec: [DataLoader] is PyTorch's, not under src/.  A
    loader walks its dataset in order, or in the order the shuffling
    sampler draws, and cuts it into batches of [batch_size]; a trailing
    partial batch is kept unless [drop_last] is set.  [shuffle] and
    [drop_last] are off when omitted. *)
Fixpoint batch_sampler {A} (n : nat) (drop : bool) (order : list A) (batch : list A)
    : list (list A) :=
  match order with
  | [] => if negb drop && (0 <? List.length batch)%nat then [batch] else []
  | x :: rest =>
      let batch' := (batch ++ [x])%list in
      if (List.length batch' =? n)%nat then batch' :: batch_sampler n drop rest []
      else batch_sampler n drop rest batch'
  end.

Definition batches (w : World) (dl : DataLoader) : option (list (list sample)) :=
  match batch_size dl with
  | PInt b =>
      if (0 <? b)%Z then
        let order :=
          if kwarg_default false (shuffle dl)
          then shuffle_order w (samples (dataset dl))
          else samples (dataset dl) in
        Some (batch_sampler (Z.to_nat b) (kwarg_default false (drop_last dl)) order [])
      else None
  | _ => None
  end.

(** ** Vocabulary of the statements *)

(** All of the attributes [names] are set in [args]. *)
Definition has_attrs (args : gmap string pyval) (names : list string) : bool :=
  forallb (fun k => bool_decide (is_Some (args !! k))) names.

(** The environment [w] with the weight file at [path] holding [b]. *)
Definition with_weight_file (w : World) (path : string) (b : blob) : World :=
  {| fresh_seed := fresh_seed w;
     manifests := manifests w;
     weight_files := <[path := b]> (weight_files w);
     compatible := compatible w;
     shuffle_order := shuffle_order w;
     lit_actions := lit_actions w |}.

Definition is_seed_event (e : event) : bool :=
  match e with EvSeedEverything _ _ => true | _ => false end.

Definition is_log_event (e : event) : bool :=
  match e with EvLogHyperparams _ _ => true | _ => false end.

Definition is_fit_event (e : event) : bool :=
  match e with EvFit _ _ _ _ => true | _ => false end.

(** An event that neither seeds, nor logs the configuration, nor starts
    training. *)
Definition quiet (e : event) : bool :=
  negb (is_seed_event e || is_log_event e || is_fit_event e).

(** ** A sample environment, for concrete runs *)

Definition sample_manifest : list sample :=
  [("img/0001.jpg", "mask/0001.png"); ("img/0002.jpg", "mask/0002.png");
   ("img/0003.jpg", "mask/0003.png"); ("img/0004.jpg", "mask/0004.png");
   ("img/0005.jpg", "mask/0005.png"); ("img/0006.jpg", "mask/0006.png");
   ("img/0007.jpg", "mask/0007.png"); ("img/0008.jpg", "mask/0008.png");
   ("img/0009.jpg", "mask/0009.png"); ("img/0010.jpg", "mask/0010.png")].

Definition sample_parameters : gmap string blob :=
  {[ "backbone.conv1.weight" := Tensor [1; 2; 3]%Z ]}.

(** A world with one manifest used for both splits, a bare weight file and
    a checkpoint of it, a sampler that walks the dataset backwards, and a
    [LitModel] that adds [--epochs]. *)
Definition sample_world : World :=
  {| fresh_seed := 1234;
     manifests := {[ "train.yaml" := sample_manifest ]};
     weight_files := <["bare.pth" := Dict sample_parameters]>
                       {[ "checkpoint.pth" := Dict {[ "model" := Dict sample_parameters ]} ]};
     compatible := fun _ _ => true;
     shuffle_order := @rev sample;
     lit_actions := [add_argument "--epochs" store type_int (PInt 100) None false] |}.

(** The namespace [get_arguments] returns for a command line that parses. *)
Definition parsed (w : World) (argv : list string) : gmap string pyval :=
  match get_arguments (lit_actions w) argv with
  | Parsed n => n
  | _ => ∅
  end.

(** ** Vocabulary of the parser's invariants *)

Section ParserVocabulary.

Variable actions : list Action.

(** A reference denotes the action at its position in [actions]. *)
Definition ref_ok (r : action_ref) : Prop := actions !! fst r = Some (snd r).

(** [v] is the default of [a], as declared or converted by [a]'s type. *)
Definition from_default (a : Action) (v : pyval) : Prop :=
  v = default a \/ exists s, default a = PStr s /\ convert (type a) s = Some v.

(** [v] is what [a] stores when it occurs on the command line. *)
Definition from_command_line (a : Action) (v : pyval) : Prop :=
  (kind a = store_true /\ v = PBool true) \/
  (kind a = store /\ exists s, convert (type a) s = Some v /\ check_value a v = true).

(** Every attribute of [n] was put there by an action that stores into
    it, and every action's attribute is set. *)
Definition ns_ok (n : gmap string pyval) : Prop :=
  (forall d v, n !! d = Some v ->
     exists a, a ∈ actions /\ dest a = Some d /\
               (from_default a v \/ from_command_line a v)) /\
  (forall a d, a ∈ actions -> dest a = Some d -> is_Some (n !! d)).

(** The action at position [i] is the only one that stores into [d]. *)
Definition sole_writer (i : nat) (d : string) : Prop :=
  forall j a, actions !! j = Some a -> dest a = Some d -> j = i.

End ParserVocabulary.

(** The action references of a tuple, and of a classified argument
    string, satisfy [Q]. *)
Definition tuple_sat (Q : action_ref -> Prop) (t : action_tuple) : Prop :=
  Q (fst (fst t)).

Definition tok_sat (Q : action_ref -> Prop) (tok : string * arg_class) : Prop :=
  match snd tok with
  | cls_O (Some r) _ _ => Q r
  | _ => True
  end.

(** Whether one of [acts] stores into the attribute [d]. *)
Definition declares (acts : list Action) (d : string) : bool :=
  existsb (fun a => bool_decide (dest a = Some d)) acts.

(** The attributes of the script's own options, lines 39-80. *)
Definition script_attrs : list string :=
  ["train_file"; "val_file"; "batch_size"; "validation"; "num_classes"; "patience";
   "log_steps"; "gpus"; "workers"; "random_seed"; "pretrained"; "output_dir";
   "model_name"; "pretrained_weights"; "imu"; "model"; "monitor_metric";
   "monitor_metric_mode"; "no_augmentation"; "precision"; "resume_from"].






(** [m] only appends to the trace, and only events that satisfy [P]. *)
Definition emits {A} (P : event -> Prop) (m : M A) : Prop :=
  forall t0, exists new, snd (m t0) = (t0 ++ new)%list /\ Forall P new.

Definition not_fit (e : event) : Prop := is_fit_event e = false.

(** The directory [os.path.join(output_dir, 'logs')] names. *)
Definition logs_path (output_dir : string) : string :=
  if String.eqb output_dir "" || ends_with_slash output_dir
  then output_dir ++ "logs" else output_dir ++ "/" ++ "logs".

(** When [m] raises, it has only appended events that satisfy [P]. *)
Definition emits_on_error {A} (P : event -> Prop) (m : M A) : Prop :=
  forall t0 e t, m t0 = (Raise e, t) ->
  exists new, t = (t0 ++ new)%list /\ Forall P new.

(** An event that is not a second seeding and that, if it hands the
    configuration to the wrapper or to the logger, hands over [a]. *)
Definition carries (a : gmap string pyval) (e : event) : Prop :=
  match e with
  | EvSeedEverything _ _ => False
  | EvLogHyperparams _ a' => a' = a
  | EvLitModel lit => lit_args lit = a
  | _ => True
  end.


(** An event of a run that restores no weights: no file is loaded, and
    the wrapper receives the network as it was constructed. *)
Definition leaves_weights (e : event) : Prop :=
  match e with
  | EvPrint _ _ | EvTorchLoad _ | EvLoadStateDict _ _ => False
  | EvLitModel lit => state (lit_model lit) = None
  | _ => True
  end.

(** The command line of the sample run, and the namespace it parses to. *)
Definition sample_argv : list string :=
  ["--model-name"; "run1"; "--train-file"; "train.yaml"; "--validation";
   "--val-file"; "train.yaml"; "--patience"; "3"].

Definition sample_args : gmap string pyval := parsed sample_world sample_argv.



(** The part of an argument string in front of its first ['='], which is
    what [argparse] matches against the option strings. *)
Definition option_prefix (s : string) : string :=
  match split_eq s with Some (p, _) => p | None => s end.

(** Whether the argument string [s] can stand for the option string [o]:
    its part in front of ['='] is a prefix of [o] (the option itself or
    an abbreviation), or its first two characters are [o]. *)
Definition may_denote (o s : string) : bool :=
  starts_with (option_prefix s) o || String.eqb o (take2 s).

(** Whether some argument string of [argv] can stand for an option
    string of [a]. *)
Definition mentioned (a : Action) (argv : list string) : bool :=
  existsb (fun s => existsb (fun o => may_denote o s) (option_strings a)) argv.

(** The value an attribute has when its option is not given: the
    declared default, converted by the option's type if it is a string. *)
Definition declared_default (a : Action) : option pyval :=
  match default a with
  | PStr s => convert (type a) s
  | v => Some v
  end.

(** All option strings of [a] are longer than a dash and a letter. *)
Definition long_options (a : Action) : bool :=
  forallb (fun o => (2 <? String.length o)%nat) (option_strings a).

(** The sample run: [train_wasr] on the sample namespace, from an empty
    trace. *)
Definition sample_run : result unit * list event :=
  train_wasr sample_world sample_args [].

(** The sample world with a [LitModel] that declares no option. *)
Definition bare_world : World :=
  {| fresh_seed := fresh_seed sample_world;
     manifests := manifests sample_world;
     weight_files := weight_files sample_world;
     compatible := compatible sample_world;
     shuffle_order := shuffle_order sample_world;
     lit_actions := [] |}.

(** * Properties *)

(** ** Running the monad *)

Ltac unfold_M :=
  cbv [mbind M_bind mret M_ret fmap M_fmap emit raise getattr local
       new_callback new_model new_dataloader new_normalization new_augmentation] in *.

Lemma getattr_Some (args : gmap string pyval) (k : string) (v : pyval) (t : list event) :
  args !! k = Some v -> getattr args k t = (Ok v, t).
Proof. intros H. unfold getattr. rewrite H. reflexivity. Qed.

Lemma bind_run {A B} (m : M A) (k : A -> M B) (t : list event) :
  (m ≫= k) t =
    match m t with
    | (Ok a, t') => k a t'
    | (Raise e, t') => (Raise e, t')
    end.
Proof. reflexivity. Qed.

Lemma bind_ext {A B} (m1 m2 : M A) (k1 k2 : A -> M B) (t : list event) :
  m1 t = m2 t ->
  (forall a t', k1 a t' = k2 a t') ->
  (m1 ≫= k1) t = (m2 ≫= k2) t.
Proof.
  intros Hm Hk. rewrite !bind_run, Hm.
  destruct (m2 t) as [[a|e] t']; [apply Hk | reflexivity].
Qed.

Lemma has_attrs_cons (args : gmap string pyval) (k : string) (ks : list string) :
  has_attrs args (k :: ks) = true -> is_Some (args !! k) /\ has_attrs args ks = true.
Proof.
  unfold has_attrs. simpl. intros H. apply andb_true_iff in H as [H1 H2].
  split; [by apply bool_decide_eq_true in H1 | done].
Qed.

(** ** Callbacks (lines 132-137) *)

(** C3.  The callback list built for the trainer is empty when validation
    is disabled.  When validation is enabled, it ends with a
    [ModelCheckpoint] that keeps the single best checkpoint by the
    monitored metric ([save_top_k=1]) and the last one ([save_last=True]),
    preceded by an [EarlyStopping] on the configured metric and mode
    exactly when [patience] is not [None]; nothing else is constructed. *)
Theorem callbacks_policy (args : gmap string pyval) (validation : pyval)
    (t0 : list event) :
  args !! "validation" = Some validation ->
  (truthy validation = false -> build_callbacks args t0 = (Ok [], t0)) /\
  (truthy validation = true ->
   forall patience metric mode,
     args !! "patience" = Some patience ->
     args !! "monitor_metric" = Some metric ->
     args !! "monitor_metric_mode" = Some mode ->
     let checkpointer := ModelCheckpoint true 1 metric mode in
     let early := EarlyStopping metric patience mode in
     let cbs := ((if is_not_none patience then [early] else []) ++ [checkpointer])%list in
     build_callbacks args t0 = (Ok cbs, (t0 ++ map EvCallback cbs)%list) /\
     checkpointer ∈ cbs /\
     (early ∈ cbs <-> patience <> PNone)).
Proof.
  intros Hv. split.
  - intros Hf. unfold build_callbacks. unfold_M. rewrite Hv, Hf. reflexivity.
  - intros Ht patience metric mode Hp Hm Hd. cbv zeta. split; [|split].
    + unfold build_callbacks. unfold_M. rewrite Hv, Ht, Hp, Hm, Hd.
      destruct (is_not_none patience); simpl; [|reflexivity].
      rewrite <- app_assoc. reflexivity.
    + apply elem_of_app. right. apply list_elem_of_singleton. reflexivity.
    + destruct patience; simpl; split; intros H; try congruence;
        try (apply elem_of_cons; left; reflexivity).
      apply list_elem_of_singleton in H. discriminate.
Qed.

Lemma callbacks_policy_witness :
  build_callbacks {[ "validation" := PBool false ]} [] = (Ok [], []) /\
  build_callbacks
    (<["validation" := PBool true]> (<["patience" := PInt 3]>
      (<["monitor_metric" := MONITOR_VAR]> {[ "monitor_metric_mode" := MONITOR_VAR_MODE ]})))
    [] =
  (Ok [EarlyStopping MONITOR_VAR (PInt 3) MONITOR_VAR_MODE;
       ModelCheckpoint true 1 MONITOR_VAR MONITOR_VAR_MODE],
   [EvCallback (EarlyStopping MONITOR_VAR (PInt 3) MONITOR_VAR_MODE);
    EvCallback (ModelCheckpoint true 1 MONITOR_VAR MONITOR_VAR_MODE)]).
Proof.
  split.
  - destruct (callbacks_policy {[ "validation" := PBool false ]} (PBool false) [])
      as [H _]; [vm_compute; reflexivity|].
    apply H. reflexivity.
  - destruct (callbacks_policy
                (<["validation" := PBool true]> (<["patience" := PInt 3]>
                  (<["monitor_metric" := MONITOR_VAR]>
                    {[ "monitor_metric_mode" := MONITOR_VAR_MODE ]})))
                (PBool true) []) as [_ H]; [vm_compute; reflexivity|].
    destruct (H eq_refl (PInt 3) MONITOR_VAR MONITOR_VAR_MODE) as [H' _];
      [vm_compute; reflexivity ..|].
    exact H'.
Defined.

(** ** Model selection (lines 110-115) *)

(** C2.  Two configurations that select the variant [deeplab] and differ
    at most in [imu] build the same model by the same call,
    [deeplabv3_resnet101(num_classes=, pretrained=)], which takes no [imu]
    argument; the construction raises nothing. *)
Theorem deeplab_ignores_imu (args1 args2 : gmap string pyval)
    (num_classes pretrained : pyval) (t0 : list event) :
  (forall k, k <> "imu" -> args1 !! k = args2 !! k) ->
  args1 !! "model" = Some (PStr "deeplab") ->
  args1 !! "num_classes" = Some num_classes ->
  args1 !! "pretrained" = Some pretrained ->
  build_model args1 t0 =
    (Ok (Some (mkModule (deeplabv3_resnet101 num_classes pretrained) None)),
     (t0 ++ [EvModel (deeplabv3_resnet101 num_classes pretrained)])%list) /\
  build_model args2 t0 = build_model args1 t0.
Proof.
  intros Hsame Hm Hn Hp.
  assert (Hrun : forall args : gmap string pyval,
             args !! "model" = Some (PStr "deeplab") ->
             args !! "num_classes" = Some num_classes ->
             args !! "pretrained" = Some pretrained ->
             build_model args t0 =
               (Ok (Some (mkModule (deeplabv3_resnet101 num_classes pretrained) None)),
                (t0 ++ [EvModel (deeplabv3_resnet101 num_classes pretrained)])%list)).
  { intros args H1 H2 H3. unfold build_model. unfold_M.
    rewrite H1. simpl. rewrite H2, H3. reflexivity. }
  split; [by apply Hrun|].
  rewrite (Hrun args1) by done.
  apply Hrun; rewrite <- Hsame; done.
Qed.

Lemma deeplab_ignores_imu_witness :
  let args := <["model" := PStr "deeplab"]> (<["num_classes" := PInt 3]>
                (<["pretrained" := PBool true]> {[ "imu" := PBool true ]})) in
  build_model (<["imu" := PBool false]> args) [] = build_model args [] /\
  fst (build_model args []) =
    Ok (Some (mkModule (deeplabv3_resnet101 (PInt 3) (PBool true)) None)).
Proof.
  cbv zeta.
  destruct (deeplab_ignores_imu
              (<["model" := PStr "deeplab"]> (<["num_classes" := PInt 3]>
                (<["pretrained" := PBool true]> {[ "imu" := PBool true ]})))
              (<["imu" := PBool false]> (<["model" := PStr "deeplab"]>
                (<["num_classes" := PInt 3]>
                  (<["pretrained" := PBool true]> {[ "imu" := PBool true ]}))))
              (PInt 3) (PBool true) []) as [H1 H2].
  - intros k Hk. symmetry. apply lookup_insert_ne.
    intros E. apply Hk. symmetry. exact E.
  - vm_compute; reflexivity.
  - vm_compute; reflexivity.
  - vm_compute; reflexivity.
  - split; [exact H2 | rewrite H1; reflexivity].
Defined.

(** C10.  Two configurations that select the variant [wasr_resnet50] and
    differ at most in [pretrained] build the same model by the same call,
    [wasr_deeplabv2_resnet50(num_classes=, imu=)]: the [pretrained] flag is
    never read on this branch. *)
Theorem resnet50_ignores_pretrained (args1 args2 : gmap string pyval)
    (t0 : list event) :
  (forall k, k <> "pretrained" -> args1 !! k = args2 !! k) ->
  args1 !! "model" = Some (PStr "wasr_resnet50") ->
  build_model args2 t0 = build_model args1 t0 /\
  forall num_classes imu,
    args1 !! "num_classes" = Some num_classes ->
    args1 !! "imu" = Some imu ->
    build_model args1 t0 =
      (Ok (Some (mkModule (wasr_deeplabv2_resnet50 num_classes imu) None)),
       (t0 ++ [EvModel (wasr_deeplabv2_resnet50 num_classes imu)])%list).
Proof.
  intros Hsame Hm.
  assert (Hm2 : args2 !! "model" = Some (PStr "wasr_resnet50"))
    by (rewrite <- Hsame; done).
  split.
  - unfold build_model. unfold_M. rewrite Hm, Hm2. simpl.
    rewrite <- (Hsame "num_classes"), <- (Hsame "imu") by done. reflexivity.
  - intros num_classes imu Hn Hi. unfold build_model. unfold_M.
    rewrite Hm. simpl. rewrite Hn, Hi. reflexivity.
Qed.

Lemma resnet50_ignores_pretrained_witness :
  let args := <["model" := PStr "wasr_resnet50"]> (<["num_classes" := PInt 3]>
                (<["imu" := PBool false]> {[ "pretrained" := PBool true ]})) in
  build_model (<["pretrained" := PBool false]> args) [] = build_model args [] /\
  fst (build_model args []) =
    Ok (Some (mkModule (wasr_deeplabv2_resnet50 (PInt 3) (PBool false)) None)).
Proof.
  cbv zeta.
  destruct (resnet50_ignores_pretrained
              (<["model" := PStr "wasr_resnet50"]> (<["num_classes" := PInt 3]>
                (<["imu" := PBool false]> {[ "pretrained" := PBool true ]})))
              (<["pretrained" := PBool false]> (<["model" := PStr "wasr_resnet50"]>
                (<["num_classes" := PInt 3]>
                  (<["imu" := PBool false]> {[ "pretrained" := PBool true ]}))))
              []) as [H1 H2].
  - intros k Hk. symmetry. apply lookup_insert_ne.
    intros E. apply Hk. symmetry. exact E.
  - vm_compute; reflexivity.
  - split; [exact H1|].
    rewrite (H2 (PInt 3) (PBool false)) by (vm_compute; reflexivity). reflexivity.
Defined.

(** ** Weight restoration (lines 117-124) *)

(** C1 (amended).  The loader looks for the key ['model'] in the mapping it
    loaded: if the key is there it loads the value stored under it,
    otherwise the mapping itself.  Hence a checkpoint [{model: P}] and the
    bare mapping [P] restore the same state, and give the same run,
    whenever [P] has no parameter called ['model'] of its own. *)
Theorem weight_blob_shapes (w : World) (model : option Module) (t0 : list event) :
  (forall d : gmap string blob,
     load_weights w model (Dict d) t0 =
       (m ← local "model" model;
        Some <$> load_state_dict w m (from_option id (Dict d) (d !! "model"))) t0) /\
  (forall P : gmap string blob,
     P !! "model" = None ->
     load_weights w model (Dict {[ "model" := Dict P ]}) t0 =
       load_weights w model (Dict P) t0) /\
  (forall (P : gmap string blob) (path : string) (args : gmap string pyval),
     P !! "model" = None ->
     train_wasr (with_weight_file w path (Dict {[ "model" := Dict P ]})) args t0 =
       train_wasr (with_weight_file w path (Dict P)) args t0).
Proof.
  assert (Hshape : forall (w' : World) (m' : option Module) (t : list event)
                     (d : gmap string blob),
             load_weights w' m' (Dict d) t =
               (m ← local "model" m';
                Some <$> load_state_dict w' m (from_option id (Dict d) (d !! "model"))) t).
  { intros w' m' t d. unfold load_weights, contains_key, subscript. unfold_M.
    destruct (d !! "model") as [v|] eqn:Hd; simpl.
    - destruct m'; reflexivity.
    - destruct m'; reflexivity. }
  assert (Hsame : forall (w1 w2 : World) (m' : option Module) (t : list event)
                    (P : gmap string blob),
             compatible w1 = compatible w2 ->
             P !! "model" = None ->
             load_weights w1 m' (Dict {[ "model" := Dict P ]}) t =
               load_weights w2 m' (Dict P) t).
  { intros w1 w2 m' t P Hc HP. rewrite !Hshape, HP, lookup_singleton_eq. simpl.
    unfold load_state_dict. rewrite Hc. reflexivity. }
  split; [apply Hshape|]. split; [intros P HP; by apply Hsame|].
  intros P path args HP. unfold train_wasr.
  apply bind_ext; [reflexivity|]. intros args' t1.
  apply bind_ext; [reflexivity|]. intros loaders t2.
  apply bind_ext; [reflexivity|]. intros m' t3.
  apply bind_ext; [|reflexivity].
  unfold restore_weights, torch_load. unfold_M.
  destruct (args' !! "pretrained_weights") as [pw|]; [|reflexivity].
  destruct (is_not_none pw); [|reflexivity].
  destruct pw as [| | |p|]; try reflexivity.
  cbn [weight_files with_weight_file].
  destruct (decide (path = p)) as [->|Hne].
  - rewrite !lookup_insert_eq. by apply Hsame.
  - rewrite !lookup_insert_ne by done.
    destruct (weight_files w !! p) as [b|]; reflexivity.
Qed.

Lemma weight_blob_shapes_witness :
  load_weights sample_world None (Dict {[ "model" := Dict sample_parameters ]}) [] =
    load_weights sample_world None (Dict sample_parameters) [] /\
  train_wasr (with_weight_file sample_world "w.pth"
                (Dict {[ "model" := Dict sample_parameters ]})) ∅ [] =
    train_wasr (with_weight_file sample_world "w.pth" (Dict sample_parameters)) ∅ [].
Proof.
  destruct (weight_blob_shapes sample_world None []) as (_ & H1 & H2).
  split.
  - apply H1. vm_compute; reflexivity.
  - apply H2. vm_compute; reflexivity.
Defined.

(** C1, as stated, fails for a parameter mapping that has an entry called
    ['model']: its checkpoint restores the mapping, while the bare file is
    taken for a checkpoint and the tensor stored under ['model'] is handed
    to [load_state_dict], which rejects it. *)
Lemma weight_blob_shapes_counterexample :
  let P : gmap string blob := {[ "model" := Tensor [1%Z] ]} in
  let net := mkModule (deeplabv3_resnet101 (PInt 3) (PBool true)) None in
  fst (load_weights sample_world (Some net) (Dict {[ "model" := Dict P ]}) []) =
    Ok (Some (mkModule (arch net) (Some P))) /\
  fst (load_weights sample_world (Some net) (Dict P) []) = Raise WeightLoadError.
Proof. split; vm_compute; reflexivity. Qed.

(** * The parser, the run and the entry point as a whole *)

(** ** The parser keeps its references and its namespace well formed *)

Section ParserFacts.

Variable actions : list Action.

Lemma option_table_ok (o : string) (r : action_ref) :
  (o, r) ∈ option_table actions -> ref_ok actions r /\ o ∈ option_strings (snd r).
Proof.
  unfold option_table. intros H.
  apply list_elem_of_In, in_concat in H as (l & Hl & Ho).
  apply list_elem_of_In, elem_of_lookup_imap in Hl as (i & a & -> & Hia).
  apply in_map_iff in Ho as (o' & [= <- <-] & Ho').
  split; [exact Hia | by apply list_elem_of_In].
Qed.

Lemma find_action_ok (s : string) (r : action_ref) :
  find_action actions s = Some r -> ref_ok actions r /\ s ∈ option_strings (snd r).
Proof.
  unfold find_action. intros H.
  destruct (List.find _ _) as [[o r']|] eqn:Hf; [|discriminate].
  injection H as <-. apply find_some in Hf as [Hin Heq]. simpl in Heq.
  apply String.eqb_eq in Heq as ->.
  by apply option_table_ok, list_elem_of_In.
Qed.

Lemma get_option_tuples_ok (s : string) (r : action_ref) (o : string)
    (e : option string) :
  (r, o, e) ∈ get_option_tuples actions s -> ref_ok actions r.
Proof.
  unfold get_option_tuples. intros H.
  destruct (second_is_dash s).
  - destruct (match split_eq s with Some (p, e0) => (p, Some e0) | None => (s, None) end)
      as [p e0].
    apply list_elem_of_omap in H as ([o' r'] & Hin & Hsome). simpl in Hsome.
    destruct (starts_with p o'); [|discriminate]. injection Hsome as <- <- <-.
    by apply option_table_ok in Hin as [? _].
  - apply list_elem_of_omap in H as ([o' r'] & Hin & Hsome). simpl in Hsome.
    apply option_table_ok in Hin as [? _].
    destruct (String.eqb o' (take2 s)); [by injection Hsome as <- <- <-|].
    destruct (starts_with s o'); [by injection Hsome as <- <- <-|discriminate].
Qed.

Lemma parse_optional_ok (s : string) (c : arg_class) :
  parse_optional actions s = inr c -> tok_sat (ref_ok actions) (s, c).
Proof.
  unfold parse_optional, tok_sat. intros H. simpl.
  repeat match type of H with
         | (if ?b then _ else _) = _ => destruct b
         | inr _ = inr _ => injection H as <-
         | inl _ = inr _ => discriminate
         end; try exact I.
  destruct (find_action actions s) as [r|] eqn:Hf.
  { injection H as <-. by apply find_action_ok in Hf as [? _]. }
  destruct (String.length s =? 1)%nat; [by injection H as <-|].
  destruct (match split_eq s with
            | Some (o, e) =>
                match find_action actions o with
                | Some a => Some (a, o, e)
                | None => None
                end
            | None => None
            end) as [[[r o] e]|] eqn:Hs.
  { injection H as <-.
    destruct (split_eq s) as [[o' e']|]; [|discriminate].
    destruct (find_action actions o') as [r'|] eqn:Hf'; [|discriminate].
    injection Hs as <- <- <-. by apply find_action_ok in Hf' as [? _]. }
  destruct (get_option_tuples actions s) as [|[[r o] e] [|? ?]] eqn:Ht.
  - repeat match type of H with
           | (if ?b then _ else _) = _ => destruct b
           | inr _ = inr _ => injection H as <-
           end; exact I.
  - injection H as <-. apply (get_option_tuples_ok s r o e).
    rewrite Ht. by apply list_elem_of_singleton.
  - discriminate.
Qed.

Lemma classify_ok (args : list string) (toks : list (string * arg_class)) :
  classify actions args = inr toks -> Forall (tok_sat (ref_ok actions)) toks.
Proof.
  revert toks. induction args as [|s rest IH]; intros toks H; simpl in H.
  - injection H as <-. constructor.
  - destruct (parse_optional actions s) as [|c] eqn:Hp; [discriminate|].
    destruct (classify actions rest) as [|cs]; [discriminate|].
    injection H as <-. constructor; [by apply parse_optional_ok | by apply IH].
Qed.

Lemma match_explicit_sat (Q : action_ref -> Prop) (e : string) :
  (forall c r, find_action actions (String "-" (String c EmptyString)) = Some r -> Q r) ->
  forall (a : action_ref) (o : string) (ts : list action_tuple)
         (p : option (action_ref * string)),
    Q a ->
    match_explicit actions a o e = inr (ts, p) ->
    Forall (tuple_sat Q) ts /\ (forall r o', p = Some (r, o') -> Q r).
Proof.
  intros HQ. induction e as [|c e' IH]; intros a o ts p Ha H; simpl in H.
  - destruct (kind (snd a)).
    + injection H as <- <-. split; [by repeat constructor | discriminate].
    + rewrite andb_false_r in H. discriminate.
    + rewrite andb_false_r in H. discriminate.
  - assert (Hrest :
      (if negb (second_is_dash o) && negb (String.eqb (String c e') "") then
         match find_action actions (String "-" (String c EmptyString)) with
         | Some a' =>
             match e' with
             | EmptyString =>
                 match kind (snd a') with
                 | store => inr ([(a, None, o)], Some (a', String "-" (String c EmptyString)))
                 | _ => inr ([(a, None, o); (a', None, String "-" (String c EmptyString))], None)
                 end
             | String _ _ =>
                 match match_explicit actions a' (String "-" (String c EmptyString)) e' with
                 | inr (ts, p) => inr ((a, None, o) :: ts, p)
                 | inl err => inl err
                 end
             end
         | None => inl (IgnoredExplicitArgument o (String c e'))
         end
       else inl (IgnoredExplicitArgument o (String c e'))) = inr (ts, p) ->
      Forall (tuple_sat Q) ts /\ (forall r o', p = Some (r, o') -> Q r)).
    { intros H'.
      destruct (negb (second_is_dash o) && negb (String.eqb (String c e') ""));
        [|discriminate].
      destruct (find_action actions _) as [a'|] eqn:Hf; [|discriminate].
      apply HQ in Hf as Ha'.
      destruct e' as [|c' e''].
      - destruct (kind (snd a')); injection H' as <- <-;
          (split; [by repeat constructor|]); try discriminate.
        intros r o' [= <- <-]. exact Ha'.
      - destruct (match_explicit actions a' _ (String c' e'')) as [|[ts' p']] eqn:Hm;
          [discriminate|].
        injection H' as <- <-.
        destruct (IH _ _ _ _ Ha' Hm) as [H1 H2].
        split; [by constructor | exact H2]. }
    destruct (kind (snd a)); [|by apply Hrest..].
    injection H as <- <-. split; [by repeat constructor | discriminate].
Qed.

(** An action that stops the parse never stops it with a namespace. *)
Lemma take_actions_stop (ts : list action_tuple) (st : pstate) (o : outcome)
    (n : gmap string pyval) :
  take_actions ts st = Stop o -> o <> Parsed n.
Proof.
  revert st. induction ts as [|[[a arg] opt] ts IH]; intros st H;
    cbn [take_actions] in H; [discriminate|].
  destruct (take_action (a, arg, opt) st) as [st1|o1] eqn:H1; [exact (IH _ H)|].
  injection H as <-. unfold take_action in H1.
  destruct (kind (snd a)).
  - destruct arg as [s|]; [|injection H1 as H1; subst; discriminate].
    destruct (convert _ s) as [v|]; [|injection H1 as H1; subst; discriminate].
    destruct (check_value _ v); [discriminate | injection H1 as H1; subst; discriminate].
  - discriminate.
  - injection H1 as H1. subst. discriminate.
Qed.

(** An invariant of the state that every action and every left-over
    argument preserves holds when the loop hands over to [finish]. *)
Lemma consume_inv_sat (Q : action_ref -> Prop) (I : pstate -> Prop)
    (trailing : list string) :
  (forall c r, find_action actions (String "-" (String c EmptyString)) = Some r -> Q r) ->
  (forall s st, I st -> I (add_extra s st)) ->
  (forall t st st', tuple_sat Q t -> I st -> take_action t st = Continue st' -> I st') ->
  forall (toks : list (string * arg_class)) (st : pstate) (n : gmap string pyval),
    Forall (tok_sat Q) toks -> I st ->
    consume actions trailing toks st = Parsed n ->
    exists st', I st' /\ finish actions trailing st' = Parsed n.
Proof.
  intros HQ Hextra Htake.
  assert (Htakes : forall ts st st',
             Forall (tuple_sat Q) ts -> I st -> take_actions ts st = Continue st' -> I st').
  { induction ts as [|t ts IH]; intros st st' Hts Hst H; cbn [take_actions] in H.
    - by injection H as <-.
    - inversion Hts as [|? ? Ht Hts']; subst.
      destruct (take_action t st) as [st1|] eqn:H1; [|discriminate].
      eapply IH; [exact Hts' | | exact H].
      eapply Htake; [exact Ht | exact Hst | exact H1]. }
  intros toks. remember (List.length toks) as k eqn:Hk.
  revert toks Hk. induction k as [k IHk] using lt_wf_ind.
  intros toks Hk st n Htoks Hst H.
  destruct toks as [|[s c] rest]; simpl in H; [by eauto|].
  inversion Htoks as [|? ? Htok Hrest]; subst. simpl in IHk.
  destruct c as [|[a|] o explicit].
  - eapply (IHk (List.length rest));
      [simpl; lia | reflexivity | eassumption | by apply Hextra | exact H].
  - assert (Ha : Q a) by exact Htok.
    destruct (match explicit with
              | Some e => match_explicit actions a o e
              | None =>
                  match kind (snd a) with
                  | store => inr ([], Some (a, o))
                  | _ => inr ([(a, None, o)], None)
                  end
              end) as [|[ts p]] eqn:Hm; [discriminate|].
    assert (Hts : Forall (tuple_sat Q) ts /\ (forall r o', p = Some (r, o') -> Q r)).
    { destruct explicit as [e|]; [by eapply match_explicit_sat|].
      destruct (kind (snd a)); injection Hm as <- <-;
        (split; [by repeat constructor|]); try discriminate.
      intros r o' [= <- <-]. exact Ha. }
    destruct Hts as [Hts Hp].
    destruct p as [[a' o']|].
    + destruct rest as [|[v [|? ? ?]] rest']; try discriminate.
      destruct (take_actions _ st) as [st1|] eqn:Ht;
        [|by apply (take_actions_stop _ _ _ n) in Ht].
      inversion Hrest; subst.
      eapply (IHk (List.length rest')); [simpl; lia|reflexivity|eassumption| |exact H].
      eapply Htakes; [|exact Hst|exact Ht].
      apply Forall_app. split; [exact Hts|]. repeat constructor. by eapply Hp.
    + destruct (take_actions ts st) as [st1|] eqn:Ht;
        [|by apply (take_actions_stop _ _ _ n) in Ht].
      eapply (IHk (List.length rest)); [simpl; lia|reflexivity|eassumption| |exact H].
      eapply Htakes; eauto.
  - eapply (IHk (List.length rest));
      [simpl; lia | reflexivity | eassumption | by apply Hextra | exact H].
Qed.

Lemma consume_inv (I : pstate -> Prop) (trailing : list string) :
  (forall s st, I st -> I (add_extra s st)) ->
  (forall t st st', tuple_sat (ref_ok actions) t -> I st ->
                    take_action t st = Continue st' -> I st') ->
  forall (toks : list (string * arg_class)) (st : pstate) (n : gmap string pyval),
    Forall (tok_sat (ref_ok actions)) toks -> I st ->
    consume actions trailing toks st = Parsed n ->
    exists st', I st' /\ finish actions trailing st' = Parsed n.
Proof.
  apply consume_inv_sat. intros c r H. by apply find_action_ok in H as [? _].
Qed.

Lemma initial_namespace_ok : ns_ok actions (initial_namespace actions).
Proof.
  unfold initial_namespace.
  set (f := fun (n : gmap string pyval) (a : Action) =>
              match dest a with
              | Some d => match n !! d with Some _ => n | None => <[d := default a]> n end
              | None => n
              end).
  assert (Hmono : forall acts n d, is_Some (n !! d) -> is_Some (foldl f n acts !! d)).
  { induction acts as [|a acts IH]; intros n d Hd; [exact Hd|]. simpl. apply IH.
    unfold f. destruct (dest a) as [d'|]; [|exact Hd].
    destruct (n !! d') eqn:Hn; [exact Hd|].
    destruct (decide (d' = d)) as [->|Hne];
      [rewrite lookup_insert_eq; eauto | by rewrite lookup_insert_ne]. }
  assert (Hgen : forall acts n,
             (forall a, a ∈ acts -> a ∈ actions) ->
             (forall d v, n !! d = Some v ->
                exists a, a ∈ actions /\ dest a = Some d /\
                          (from_default a v \/ from_command_line a v)) ->
             (forall d v, foldl f n acts !! d = Some v ->
                exists a, a ∈ actions /\ dest a = Some d /\
                          (from_default a v \/ from_command_line a v)) /\
             (forall a d, a ∈ acts -> dest a = Some d ->
                is_Some (foldl f n acts !! d))).
  { induction acts as [|a acts IH]; intros n Hsub Hn.
    - split; [exact Hn|]. intros a d Ha. by apply elem_of_nil in Ha.
    - simpl.
      assert (Hfn : forall d v, f n a !! d = Some v ->
                exists a', a' ∈ actions /\ dest a' = Some d /\
                           (from_default a' v \/ from_command_line a' v)).
      { intros d v. unfold f. destruct (dest a) as [d'|] eqn:Hd; [|apply Hn].
        destruct (n !! d') eqn:Hnd; [apply Hn|].
        destruct (decide (d' = d)) as [->|Hne].
        - rewrite lookup_insert_eq. intros [= <-]. exists a.
          split; [apply Hsub; by left|]. split; [exact Hd|]. left. by left.
        - rewrite lookup_insert_ne by done. apply Hn. }
      destruct (IH (f n a)) as [H1 H2];
        [intros a' Ha'; apply Hsub; by right | exact Hfn |].
      split; [exact H1|]. intros a' d Ha' Hd.
      apply elem_of_cons in Ha' as [->|Ha']; [|by eapply H2].
      apply Hmono. unfold f. rewrite Hd.
      destruct (n !! d) eqn:Hnd; [rewrite Hnd; eauto|].
      rewrite lookup_insert_eq. eauto. }
  apply Hgen; [done|]. intros d v H. by rewrite lookup_empty in H.
Qed.

Lemma setattr_ok (a : Action) (v : pyval) (n : gmap string pyval) :
  a ∈ actions -> from_command_line a v -> ns_ok actions n -> ns_ok actions (setattr (dest a) v n).
Proof.
  intros Ha Hv [H1 H2]. unfold setattr.
  destruct (dest a) as [d|] eqn:Hd; [|by split]. split.
  - intros d' v'. destruct (decide (d = d')) as [->|Hne].
    + rewrite lookup_insert_eq. intros [= <-]. exists a. eauto.
    + rewrite lookup_insert_ne by done. apply H1.
  - intros a' d' Ha' Hd'. destruct (decide (d = d')) as [->|Hne].
    + rewrite lookup_insert_eq. eauto.
    + rewrite lookup_insert_ne by done. by eapply H2.
Qed.

Lemma ref_ok_elem (r : action_ref) : ref_ok actions r -> snd r ∈ actions.
Proof. intros H. eapply list_elem_of_lookup_2, H. Qed.

Lemma take_action_ok (t : action_tuple) (st st' : pstate) :
  tuple_sat (ref_ok actions) t -> ns_ok actions (ns st) -> take_action t st = Continue st' -> ns_ok actions (ns st').
Proof.
  destruct t as [[r arg] o]. intros Hr Hn H. apply ref_ok_elem in Hr. simpl in Hr.
  unfold take_action in H. destruct (kind (snd r)) eqn:Hk.
  - destruct arg as [s|]; [|discriminate].
    destruct (convert _ s) as [v|] eqn:Hc; [|discriminate].
    destruct (check_value _ v) eqn:Hv; [|discriminate].
    injection H as <-. simpl. apply setattr_ok; [done| |done].
    right. eauto.
  - injection H as <-. simpl. apply setattr_ok; [done| |done]. left. eauto.
  - discriminate.
Qed.

Lemma check_actions_ok (acts : list action_ref) (seen_actions : list nat)
    (n n' : gmap string pyval) (missing missing' : list string) :
  Forall (ref_ok actions) acts -> ns_ok actions n ->
  check_actions acts seen_actions n missing = inr (n', missing') -> ns_ok actions n'.
Proof.
  revert n missing. induction acts as [|[i a] acts IH]; intros n missing Hacts Hn H;
    simpl in H.
  - by injection H as <- <-.
  - inversion Hacts as [|? ? Hr Hacts']; subst. apply ref_ok_elem in Hr. simpl in Hr.
    destruct (bool_decide (i ∈ seen_actions)); [by eapply IH|].
    destruct (required a); [by eapply IH|].
    destruct (default a) as [| | |s|] eqn:Hd; try (by eapply IH).
    destruct (dest a) as [d|] eqn:Hdest; [|by eapply IH].
    destruct (bool_decide (n !! d = Some (PStr s))); [|by eapply IH].
    destruct (convert (type a) s) as [v|] eqn:Hc; [|discriminate].
    eapply IH; [exact Hacts'| |exact H].
    destruct Hn as [H1 H2]. split.
    + intros d' v'. destruct (decide (d = d')) as [->|Hne].
      * rewrite lookup_insert_eq. intros [= <-]. exists a.
        split; [done|]. split; [done|]. left. right. eauto.
      * rewrite lookup_insert_ne by done. apply H1.
    + intros a' d' Ha' Hd'. destruct (decide (d = d')) as [->|Hne].
      * rewrite lookup_insert_eq. eauto.
      * rewrite lookup_insert_ne by done. by eapply H2.
Qed.

Lemma imap_pair_ok : Forall (ref_ok actions) (imap pair actions).
Proof.
  apply Forall_forall. intros [i a] H.
  apply elem_of_lookup_imap in H as (j & b & [= -> ->] & Hj). exact Hj.
Qed.

Lemma finish_ok (trailing : list string) (st : pstate) (n : gmap string pyval) :
  ns_ok actions (ns st) -> finish actions trailing st = Parsed n -> ns_ok actions n.
Proof.
  unfold finish. intros Hn H.
  destruct (check_actions _ _ _ _) as [|[n' missing]] eqn:Hc; [discriminate|].
  destruct missing; [|discriminate].
  destruct (extras st ++ trailing)%list; [|discriminate].
  injection H as <-. eapply check_actions_ok; [apply imap_pair_ok | exact Hn | exact Hc].
Qed.

(** Whatever the command line, a namespace that [parse_args] returns
    holds, for every declared attribute, a value that one of the actions
    storing into it gave it, and holds nothing else. *)
Lemma parse_args_ok (args : list string) (n : gmap string pyval) :
  parse_args actions args = Parsed n -> ns_ok actions n.
Proof.
  unfold parse_args. destruct (split_dashdash args) as [pre trailing].
  destruct (classify actions pre) as [|toks] eqn:Hc; [discriminate|].
  intros H.
  apply (consume_inv (fun st => ns_ok actions (ns st))) in H as (st' & Hst' & Hfin).
  - by eapply finish_ok.
  - intros s st Hst. exact Hst.
  - intros t st st'. apply take_action_ok.
  - by eapply classify_ok.
  - apply initial_namespace_ok.
Qed.

Lemma check_actions_missing (acts : list action_ref) (seen_actions : list nat)
    (n n' : gmap string pyval) (missing missing' : list string) :
  check_actions acts seen_actions n missing = inr (n', missing') ->
  (exists more, missing' = (missing ++ more)%list) /\
  (missing' = [] ->
   forall i a, (i, a) ∈ acts -> required a = true -> i ∈ seen_actions).
Proof.
  revert n missing. induction acts as [|[i a] acts IH]; intros n missing H; simpl in H.
  - injection H as <- <-. split; [exists []; by rewrite app_nil_r|].
    intros _ i a Hin. by apply elem_of_nil in Hin.
  - destruct (bool_decide (i ∈ seen_actions)) eqn:Hseen.
    { apply IH in H as [Hmore Hreq]. split; [exact Hmore|].
      intros Hnil j b Hin Hb. apply elem_of_cons in Hin as [[= -> ->]|Hin];
        [by apply bool_decide_eq_true in Hseen | by eapply Hreq]. }
    destruct (required a) eqn:Hra.
    { apply IH in H as [[more ->] Hreq]. split.
      - exists ([action_name a] ++ more)%list. by rewrite app_assoc.
      - intros Hnil. exfalso. rewrite <- app_assoc in Hnil.
        apply app_eq_nil in Hnil as [_ Hnil]. discriminate. }
    assert (Hskip : forall n0, check_actions acts seen_actions n0 missing = inr (n', missing') ->
              (exists more, missing' = (missing ++ more)%list) /\
              (missing' = [] ->
               forall j b, (j, b) ∈ (i, a) :: acts -> required b = true ->
                           j ∈ seen_actions)).
    { intros n0 H0. apply IH in H0 as [Hmore Hreq]. split; [exact Hmore|].
      intros Hnil j b Hin Hb. apply elem_of_cons in Hin as [[= -> ->]|Hin];
        [congruence | by eapply Hreq]. }
    destruct (default a) as [| | |s|]; try (by eapply Hskip).
    destruct (dest a) as [d|]; [|by eapply Hskip].
    destruct (bool_decide (n !! d = Some (PStr s))); [|by eapply Hskip].
    destruct (convert (type a) s) as [v|]; [by eapply Hskip | discriminate].
Qed.




(** *** An option that is not mentioned keeps its default *)

Lemma starts_with_refl (s : string) : starts_with s s = true.
Proof. induction s as [|c s IH]; [reflexivity|]. simpl. by rewrite Ascii.eqb_refl. Qed.

Lemma starts_with_trans (p s o : string) :
  starts_with p s = true -> starts_with s o = true -> starts_with p o = true.
Proof.
  revert s o. induction p as [|a p IH]; intros s o H1 H2; [reflexivity|].
  destruct s as [|b s]; [discriminate|]. destruct o as [|c o]; [discriminate|].
  simpl in *. apply andb_true_iff in H1 as [E1 H1]. apply andb_true_iff in H2 as [E2 H2].
  apply Ascii.eqb_eq in E1 as ->. rewrite E2. simpl. by eapply IH.
Qed.

Lemma option_prefix_starts (s : string) : starts_with (option_prefix s) s = true.
Proof.
  unfold option_prefix. induction s as [|c s IH]; [reflexivity|]. simpl.
  destruct (Ascii.eqb c "="); [reflexivity|].
  destruct (split_eq s) as [[l r]|]; simpl; rewrite Ascii.eqb_refl; simpl;
    [exact IH | apply starts_with_refl].
Qed.

Lemma parse_optional_denotes (s o : string) (r : action_ref) (e : option string) :
  parse_optional actions s = inr (cls_O (Some r) o e) ->
  ref_ok actions r /\ o ∈ option_strings (snd r) /\ may_denote o s = true.
Proof.
  unfold parse_optional. intros H.
  destruct (String.eqb s ""); [discriminate|].
  destruct (negb (first_is_dash s)); [discriminate|].
  destruct (find_action actions s) as [r'|] eqn:Hf.
  { injection H as -> -> _. apply find_action_ok in Hf as [? ?].
    repeat split; [done..|]. unfold may_denote.
    by rewrite option_prefix_starts. }
  destruct (String.length s =? 1)%nat; [discriminate|].
  destruct (split_eq s) as [[o' e']|] eqn:Hs.
  - destruct (find_action actions o') as [r'|] eqn:Hf'.
    { injection H as -> -> _. apply find_action_ok in Hf' as [? ?].
      repeat split; [done..|]. unfold may_denote, option_prefix. rewrite Hs.
      by rewrite starts_with_refl. }
    destruct (get_option_tuples actions s) as [|[[r' o''] e''] [|? ?]] eqn:Ht;
      [|injection H as -> -> ->|discriminate].
    { destruct (_ && _); [discriminate|]. destruct (contains_char _ _); discriminate. }
    assert (Hin : (r, o, e) ∈ get_option_tuples actions s)
      by (rewrite Ht; by apply list_elem_of_singleton).
    split; [by eapply get_option_tuples_ok|].
    unfold get_option_tuples in Hin. rewrite Hs in Hin.
    destruct (second_is_dash s);
      apply list_elem_of_omap in Hin as ([o1 r1] & Hin & Hsome); simpl in Hsome;
      apply option_table_ok in Hin as [_ Ho1].
    + destruct (starts_with o' o1) eqn:Hst; [|discriminate].
      injection Hsome as <- <- <-. split; [done|].
      unfold may_denote, option_prefix. by rewrite Hs, Hst.
    + destruct (String.eqb o1 (take2 s)) eqn:Heq.
      { injection Hsome as <- <- <-. split; [done|].
        unfold may_denote. by rewrite Heq, orb_true_r. }
      destruct (starts_with s o1) eqn:Hst; [|discriminate].
      injection Hsome as <- <- <-. split; [done|].
      unfold may_denote. rewrite (starts_with_trans _ s o1); [done| |done].
      apply option_prefix_starts.
  - destruct (get_option_tuples actions s) as [|[[r' o''] e''] [|? ?]] eqn:Ht;
      [|injection H as -> -> ->|discriminate].
    { destruct (_ && _); [discriminate|]. destruct (contains_char _ _); discriminate. }
    assert (Hin : (r, o, e) ∈ get_option_tuples actions s)
      by (rewrite Ht; by apply list_elem_of_singleton).
    split; [by eapply get_option_tuples_ok|].
    unfold get_option_tuples in Hin. rewrite Hs in Hin.
    destruct (second_is_dash s);
      apply list_elem_of_omap in Hin as ([o1 r1] & Hin & Hsome); simpl in Hsome;
      apply option_table_ok in Hin as [_ Ho1].
    + destruct (starts_with s o1) eqn:Hst; [|discriminate].
      injection Hsome as <- <- <-. split; [done|].
      unfold may_denote, option_prefix. by rewrite Hs, Hst.
    + destruct (String.eqb o1 (take2 s)) eqn:Heq.
      { injection Hsome as <- <- <-. split; [done|].
        unfold may_denote. by rewrite Heq, orb_true_r. }
      destruct (starts_with s o1) eqn:Hst; [|discriminate].
      injection Hsome as <- <- <-. split; [done|].
      unfold may_denote, option_prefix. by rewrite Hs, Hst.
Qed.

Lemma mentioned_false (a : Action) (argv : list string) (s o : string) :
  mentioned a argv = false -> s ∈ argv -> o ∈ option_strings a ->
  may_denote o s = false.
Proof.
  unfold mentioned. intros H Hs Ho.
  destruct (may_denote o s) eqn:Hd; [|reflexivity].
  assert (existsb (fun s => existsb (fun o => may_denote o s) (option_strings a)) argv
          = true) as Ht; [|congruence].
  apply existsb_exists. exists s. split; [by apply list_elem_of_In|].
  apply existsb_exists. exists o. split; [by apply list_elem_of_In | exact Hd].
Qed.

Lemma classify_unmentioned (i : nat) (a : Action) (pre : list string)
    (toks : list (string * arg_class)) :
  actions !! i = Some a -> mentioned a pre = false ->
  classify actions pre = inr toks ->
  Forall (tok_sat (fun r => ref_ok actions r /\ fst r <> i)) toks.
Proof.
  intros Hia Hm. revert toks.
  induction pre as [|s rest IH]; intros toks H; simpl in H.
  - injection H as <-. constructor.
  - destruct (parse_optional actions s) as [|c] eqn:Hp; [discriminate|].
    destruct (classify actions rest) as [|cs]; [discriminate|].
    injection H as <-.
    assert (Hrest : mentioned a rest = false).
    { unfold mentioned in *. simpl in Hm. by apply orb_false_iff in Hm as [_ ?]. }
    constructor; [|by apply IH].
    unfold tok_sat. simpl. destruct c as [|[r|] o e]; try exact I.
    apply parse_optional_denotes in Hp as (Hr & Ho & Hd). split; [exact Hr|].
    intros Hi. unfold ref_ok in Hr. rewrite Hi, Hia in Hr. injection Hr as Hr.
    rewrite <- Hr in Ho.
    rewrite (mentioned_false a (s :: rest) s o Hm) in Hd; [discriminate| |exact Ho].
    by left.
Qed.

Lemma short_option_other (i : nat) (a : Action) (c : ascii) (r : action_ref) :
  actions !! i = Some a -> long_options a = true ->
  find_action actions (String "-" (String c EmptyString)) = Some r ->
  ref_ok actions r /\ fst r <> i.
Proof.
  intros Hia Hlong Hf. apply find_action_ok in Hf as [Hr Ho]. split; [exact Hr|].
  intros Hi. unfold ref_ok in Hr. rewrite Hi, Hia in Hr. injection Hr as Hr.
  rewrite <- Hr in Ho. unfold long_options in Hlong.
  apply list_elem_of_In in Ho. eapply forallb_forall in Hlong; [|exact Ho].
  discriminate.
Qed.

Lemma take_action_other (i : nat) (d : string) (v0 : option pyval) (t : action_tuple)
    (st st' : pstate) :
  sole_writer actions i d ->
  tuple_sat (fun r => ref_ok actions r /\ fst r <> i) t ->
  (i ∉ seen st) /\ ns st !! d = v0 ->
  take_action t st = Continue st' ->
  (i ∉ seen st') /\ ns st' !! d = v0.
Proof.
  intros Hsole Ht [Hseen Hns] H. destruct t as [[[j b] arg] o].
  unfold tuple_sat, ref_ok in Ht. simpl in Ht. destruct Ht as [Hjb Hji].
  assert (Hset : forall v, setattr (dest b) v (ns st) !! d = v0).
  { intros v. unfold setattr. destruct (dest b) as [d'|] eqn:Hd; [|exact Hns].
    rewrite lookup_insert_ne; [exact Hns|]. intros ->.
    apply Hji. by eapply Hsole. }
  assert (Hseen' : i ∉ j :: seen st).
  { intros Hin. apply elem_of_cons in Hin as [->|Hin]; [by apply Hji | by apply Hseen]. }
  unfold take_action in H. simpl in H. destruct (kind b).
  - destruct arg as [s|]; [|discriminate].
    destruct (convert _ s) as [v|]; [|discriminate].
    destruct (check_value _ v); [|discriminate].
    injection H as <-. simpl. by split.
  - injection H as <-. simpl. by split.
  - discriminate.
Qed.

Lemma initial_namespace_other (d : string) (acts : list Action) (n : gmap string pyval) :
  (forall b, b ∈ acts -> dest b <> Some d) ->
  foldl (fun n a =>
           match dest a with
           | Some d => match n !! d with Some _ => n | None => <[d := default a]> n end
           | None => n
           end) n acts !! d = n !! d.
Proof.
  revert n. induction acts as [|b acts IH]; intros n Hacts; [reflexivity|].
  simpl. rewrite IH by (intros b' Hb'; apply Hacts; by right).
  destruct (dest b) as [d'|] eqn:Hd; [|reflexivity].
  destruct (n !! d'); [reflexivity|].
  apply lookup_insert_ne. intros ->. by apply (Hacts b); [left|].
Qed.

Lemma sole_writer_split (i : nat) (a : Action) (d : string) :
  actions !! i = Some a -> sole_writer actions i d ->
  actions = (take i actions ++ a :: drop (S i) actions)%list /\
  (forall b, b ∈ take i actions -> dest b <> Some d) /\
  (forall b, b ∈ drop (S i) actions -> dest b <> Some d).
Proof.
  intros Hia Hsole. split; [by rewrite take_drop_middle|]. split.
  - intros b Hb Hd. apply list_elem_of_lookup in Hb as [j Hj].
    pose proof (lookup_lt_Some _ _ _ Hj) as Hlt. rewrite length_take in Hlt.
    rewrite lookup_take_lt in Hj by lia. pose proof (Hsole j b Hj Hd). lia.
  - intros b Hb Hd. apply list_elem_of_lookup in Hb as [j Hj].
    rewrite lookup_drop in Hj. pose proof (Hsole _ b Hj Hd). lia.
Qed.

Lemma initial_namespace_default (i : nat) (a : Action) (d : string) :
  actions !! i = Some a -> dest a = Some d -> sole_writer actions i d ->
  initial_namespace actions !! d = Some (default a).
Proof.
  intros Hia Hd Hsole.
  destruct (sole_writer_split i a d Hia Hsole) as (Hsplit & Hpre & Hpost).
  unfold initial_namespace. rewrite Hsplit at 1. rewrite foldl_app. simpl.
  rewrite initial_namespace_other by exact Hpost.
  rewrite Hd. rewrite initial_namespace_other by exact Hpre.
  rewrite lookup_empty. apply lookup_insert_eq.
Qed.

Lemma check_actions_others (i : nat) (d : string) (acts : list action_ref)
    (seen_actions : list nat) (n n' : gmap string pyval)
    (missing missing' : list string) :
  sole_writer actions i d ->
  Forall (fun r => ref_ok actions r /\ fst r <> i) acts ->
  check_actions acts seen_actions n missing = inr (n', missing') ->
  n' !! d = n !! d.
Proof.
  intros Hsole. revert n missing.
  induction acts as [|[j a] acts IH]; intros n missing Hacts H; simpl in H.
  - by injection H as <- <-.
  - inversion Hacts as [|? ? [Hr Hji] Hacts']; subst. simpl in Hji.
    destruct (bool_decide (j ∈ seen_actions)); [by eapply IH|].
    destruct (required a); [by eapply IH|].
    destruct (default a) as [| | |s|]; try (by eapply IH).
    destruct (dest a) as [d'|] eqn:Hd; [|by eapply IH].
    destruct (bool_decide (n !! d' = Some (PStr s))); [|by eapply IH].
    destruct (convert (type a) s) as [v|]; [|discriminate].
    erewrite IH; [|exact Hacts'|exact H].
    apply lookup_insert_ne. intros ->. apply Hji. by eapply Hsole.
Qed.

Lemma check_actions_app (acts1 acts2 : list action_ref) (seen_actions : list nat)
    (n : gmap string pyval) (missing : list string) :
  check_actions (acts1 ++ acts2) seen_actions n missing =
    match check_actions acts1 seen_actions n missing with
    | inl err => inl err
    | inr (n1, missing1) => check_actions acts2 seen_actions n1 missing1
    end.
Proof.
  revert n missing. induction acts1 as [|[j a] acts1 IH]; intros n missing; simpl;
    [reflexivity|].
  destruct (bool_decide (j ∈ seen_actions)); [apply IH|].
  destruct (required a); [apply IH|].
  destruct (default a) as [| | |s|]; try apply IH.
  destruct (dest a) as [d|]; [|apply IH].
  destruct (bool_decide (n !! d = Some (PStr s))); [|apply IH].
  destruct (convert (type a) s); [apply IH | reflexivity].
Qed.

Lemma imap_pair_indices (l : list Action) (k : nat) :
  (imap (fun j b => (k + j, b)%nat) l).*1 = seq k (List.length l).
Proof.
  revert k. induction l as [|b l IH]; intros k; [reflexivity|].
  simpl. rewrite Nat.add_0_r. f_equal. rewrite <- (IH (S k)). f_equal.
  apply imap_ext. intros j c _. simpl. f_equal. lia.
Qed.

Lemma imap_pair_split (i : nat) (a : Action) :
  actions !! i = Some a ->
  exists before after,
    imap pair actions = (before ++ (i, a) :: after)%list /\
    Forall (fun r => ref_ok actions r /\ fst r <> i) before /\
    Forall (fun r => ref_ok actions r /\ fst r <> i) after.
Proof.
  intros Hia.
  assert (Hnd : NoDup (imap pair actions).*1).
  { change (imap pair actions) with (imap (fun j b => (0 + j, b)%nat) actions).
    rewrite imap_pair_indices. apply NoDup_seq. }
  assert (Hin : (i, a) ∈ imap pair actions) by (apply elem_of_lookup_imap; eauto).
  apply list_elem_of_split in Hin as (before & after & Heq).
  exists before, after. split; [exact Heq|].
  rewrite Heq in Hnd. rewrite fmap_app, fmap_cons in Hnd.
  apply NoDup_app in Hnd as (_ & Hdisj & Hnd). apply NoDup_cons in Hnd as [Hni _].
  pose proof imap_pair_ok as Hok. rewrite Heq in Hok.
  apply Forall_app in Hok as [Hok1 Hok2]. inversion Hok2 as [|? ? _ Hok3]; subst.
  split; apply Forall_forall; intros [j b] Hjb; (split; [|simpl; intros ->]).
  - by eapply Forall_forall in Hok1.
  - apply (Hdisj i); [apply list_elem_of_fmap; by exists (i, b) | by left].
  - by eapply Forall_forall in Hok3.
  - apply Hni. apply list_elem_of_fmap. by exists (i, b).
Qed.

Lemma finish_default (i : nat) (a : Action) (d : string) (trailing : list string)
    (st : pstate) (n : gmap string pyval) :
  actions !! i = Some a -> dest a = Some d -> sole_writer actions i d ->
  i ∉ seen st -> ns st !! d = Some (default a) ->
  finish actions trailing st = Parsed n ->
  n !! d = declared_default a.
Proof.
  intros Hia Hd Hsole Hseen Hns H. unfold finish in H.
  destruct (check_actions _ _ _ _) as [|[n' missing]] eqn:Hc; [discriminate|].
  destruct missing; [|discriminate].
  destruct (extras st ++ trailing)%list; [|discriminate].
  injection H as <-.
  destruct (imap_pair_split i a Hia) as (before & after & Heq & Hb & Ha).
  rewrite Heq, check_actions_app in Hc.
  destruct (check_actions before _ _ _) as [|[n1 m1]] eqn:H1; [discriminate|].
  pose proof (check_actions_others i d _ _ _ _ _ _ Hsole Hb H1) as Hn1.
  rewrite Hns in Hn1. cbn [check_actions] in Hc.
  rewrite bool_decide_eq_false_2 in Hc by exact Hseen.
  destruct (required a).
  { apply check_actions_missing in Hc as [[more Hmore] _].
    rewrite <- app_assoc in Hmore. symmetry in Hmore.
    apply app_eq_nil in Hmore as [_ Hmore]. discriminate. }
  unfold declared_default. rewrite Hd in Hc.
  destruct (default a) as [| | |s|] eqn:Hdef;
    try (rewrite (check_actions_others i d _ _ _ _ _ _ Hsole Ha Hc); exact Hn1).
  rewrite bool_decide_eq_true_2 in Hc by exact Hn1.
  destruct (convert (type a) s) as [v|]; [|discriminate].
  rewrite (check_actions_others i d _ _ _ _ _ _ Hsole Ha Hc).
  apply lookup_insert_eq.
Qed.

Lemma split_dashdash_app (args pre trailing : list string) :
  split_dashdash args = (pre, trailing) -> args = (pre ++ trailing)%list.
Proof.
  revert pre trailing. induction args as [|s rest IH]; intros pre trailing H; simpl in H.
  - by injection H as <- <-.
  - destruct (String.eqb s "--"); [by injection H as <- <-|].
    destruct (split_dashdash rest) as [p q]. injection H as <- <-.
    simpl. f_equal. by apply IH.
Qed.

(** An option that no argument string can stand for, and whose
    attribute no other action stores into: every namespace [parse_args]
    returns holds the option's declared default under that attribute. *)
Lemma parse_args_default (args : list string) (n : gmap string pyval)
    (i : nat) (a : Action) (d : string) :
  parse_args actions args = Parsed n ->
  actions !! i = Some a -> dest a = Some d -> sole_writer actions i d ->
  long_options a = true -> mentioned a args = false ->
  n !! d = declared_default a.
Proof.
  unfold parse_args. destruct (split_dashdash args) as [pre trailing] eqn:Hsplit.
  destruct (classify actions pre) as [|toks] eqn:Hc; [discriminate|].
  intros H Hia Hd Hsole Hlong Hm.
  assert (Hpre : mentioned a pre = false).
  { apply split_dashdash_app in Hsplit. subst args. unfold mentioned in *.
    rewrite existsb_app in Hm. by apply orb_false_iff in Hm as [? _]. }
  apply (consume_inv_sat (fun r => ref_ok actions r /\ fst r <> i)
           (fun st => (i ∉ seen st) /\ ns st !! d = Some (default a)))
    in H as (st' & [Hseen Hns] & Hfin).
  - by eapply finish_default.
  - intros c r. by apply (short_option_other i a).
  - intros s st Hst. exact Hst.
  - intros t st st' Ht Hst. by apply take_action_other.
  - by apply (classify_unmentioned i a pre).
  - simpl. split; [apply not_elem_of_nil | by apply (initial_namespace_default i)].
Qed.

End ParserFacts.

(** ** What [get_arguments] returns *)

Lemma get_arguments_parse_args (lit : list Action) (argv : list string)
    (args : gmap string pyval) :
  get_arguments lit argv = Parsed args ->
  parse_args (base_actions ++ lit) argv = Parsed args.
Proof.
  unfold get_arguments. destruct (first_conflict _ _); [discriminate | done].
Qed.

Lemma script_attrs_dests : script_attrs = omap dest base_actions.
Proof. reflexivity. Qed.

Lemma declares_false (lit : list Action) (d : string) (a : Action) :
  declares lit d = false -> a ∈ lit -> dest a <> Some d.
Proof.
  unfold declares. intros H Ha Hd.
  assert (existsb (fun a => bool_decide (dest a = Some d)) lit = true) as Ht.
  { apply existsb_exists. exists a. split; [by apply list_elem_of_In|].
    by apply bool_decide_eq_true. }
  congruence.
Qed.



Lemma base_sole_writer (lit : list Action) (i : nat) (a : Action) (d : string) :
  base_actions !! i = Some a -> dest a = Some d -> declares lit d = false ->
  sole_writer (base_actions ++ lit) i d.
Proof.
  intros Hia Hd Hlit j b Hj Hb.
  destruct (decide (j < List.length base_actions)%nat) as [Hlt|Hge].
  - rewrite lookup_app_l in Hj by exact Hlt. clear Hlit Hlt.
    do 22 (destruct i as [|i];
           [injection Hia as <-; vm_compute in Hd; try discriminate Hd;
            injection Hd as <-;
            do 22 (destruct j as [|j];
                   [injection Hj as <-; vm_compute in Hb;
                    first [discriminate Hb | reflexivity]|]);
            discriminate Hj|]).
    discriminate Hia.
  - rewrite lookup_app_r in Hj by lia.
    apply list_elem_of_lookup_2 in Hj. by destruct (declares_false lit _ b Hlit Hj).
Qed.

Lemma base_long_options (i : nat) (a : Action) (d : string) :
  base_actions !! i = Some a -> dest a = Some d -> long_options a = true.
Proof.
  intros Hia Hd.
  do 22 (destruct i as [|i];
         [injection Hia as <-; vm_compute in Hd; try discriminate Hd;
          vm_compute; reflexivity|]).
  discriminate Hia.
Qed.

(** X5 (get_arguments, lines 39-84).  An option of the script that the
    command line does not mention keeps its declared default: when no
    argument string is one of the option's strings, an abbreviation of
    one, or either of these followed by ['='] and a value, and
    [LitModel] declares no option for the same attribute, then the
    namespace that [get_arguments] returns holds, under the option's
    attribute, the default given in its [add_argument] call (converted
    by the option's [type] if the default is a string). *)
Theorem unmentioned_option_keeps_default (lit : list Action) (argv : list string)
    (args : gmap string pyval) (a : Action) (d : string) :
  get_arguments lit argv = Parsed args ->
  a ∈ base_actions -> dest a = Some d -> declares lit d = false ->
  mentioned a argv = false ->
  args !! d = declared_default a.
Proof.
  intros H Ha Hd Hlit Hm.
  apply list_elem_of_lookup in Ha as [i Hia].
  apply get_arguments_parse_args in H.
  apply (parse_args_default _ argv args i a d H).
  - rewrite lookup_app_l; [exact Hia | by eapply lookup_lt_Some].
  - exact Hd.
  - by apply base_sole_writer with a.
  - by eapply base_long_options.
  - exact Hm.
Qed.

Lemma unmentioned_option_keeps_default_witness :
  sample_args !! "output_dir" = Some OUTPUT_DIR /\
  sample_args !! "batch_size" = Some DEVICE_BATCH_SIZE.
Proof.
  split.
  - apply (unmentioned_option_keeps_default (lit_actions sample_world) sample_argv
             sample_args (add_argument "--output-dir" store type_str OUTPUT_DIR None false)).
    + vm_compute; reflexivity.
    + apply (list_elem_of_lookup_2 _ 12). reflexivity.
    + vm_compute; reflexivity.
    + vm_compute; reflexivity.
    + vm_compute; reflexivity.
  - apply (unmentioned_option_keeps_default (lit_actions sample_world) sample_argv
             sample_args (add_argument "--batch-size" store type_int DEVICE_BATCH_SIZE None false)).
    + vm_compute; reflexivity.
    + apply (list_elem_of_lookup_2 _ 3). reflexivity.
    + vm_compute; reflexivity.
    + vm_compute; reflexivity.
    + vm_compute; reflexivity.
Defined.

(** ** What a computation can append to the trace *)

Lemma emits_ret {A} (P : event -> Prop) (a : A) : emits P (mret a).
Proof. intros t0. exists []. split; [by rewrite app_nil_r | constructor]. Qed.

Lemma emits_raise {A} (P : event -> Prop) (e : exn) : emits P (@raise A e).
Proof. intros t0. exists []. split; [by rewrite app_nil_r | constructor]. Qed.

Lemma emits_emit (P : event -> Prop) (e : event) : P e -> emits P (emit e).
Proof. intros He t0. exists [e]. split; [reflexivity | by repeat constructor]. Qed.

Lemma emits_bind {A B} (P : event -> Prop) (m : M A) (k : A -> M B) :
  emits P m -> (forall a, emits P (k a)) -> emits P (m ≫= k).
Proof.
  intros Hm Hk t0. destruct (Hm t0) as (new1 & H1 & HP1).
  rewrite bind_run. destruct (m t0) as [[a|e] t1]; simpl in H1; subst t1.
  - destruct (Hk a (t0 ++ new1)%list) as (new2 & H2 & HP2).
    exists (new1 ++ new2)%list. rewrite H2, app_assoc.
    split; [reflexivity | by apply Forall_app].
  - by exists new1.
Qed.

Lemma emits_fmap {A B} (P : event -> Prop) (f : A -> B) (m : M A) :
  emits P m -> emits P (f <$> m).
Proof.
  intros Hm t0. destruct (Hm t0) as (new & H & HP). exists new.
  split; [|exact HP]. unfold fmap, M_fmap.
  by destruct (m t0) as [[a|e] t1].
Qed.

Lemma emits_getattr (P : event -> Prop) (args : gmap string pyval) (k : string) :
  emits P (getattr args k).
Proof.
  unfold getattr. destruct (args !! k); [apply emits_ret | apply emits_raise].
Qed.

Lemma emits_local {A} (P : event -> Prop) (var : string) (v : option A) :
  emits P (local var v).
Proof. destruct v; [apply emits_ret | apply emits_raise]. Qed.

Create HintDb emits.

#[local] Hint Resolve emits_ret emits_raise emits_getattr emits_local : emits.

Lemma emits_unbound {A B} (P : event -> Prop) (var : string) (k : A -> M B) :
  emits P (local var None ≫= k).
Proof. intros t0. exists []. split; [by rewrite app_nil_r | constructor]. Qed.

Lemma emits_bound {A B} (P : event -> Prop) (var : string) (a : A) (k : A -> M B) :
  emits P (k a) -> emits P (local var (Some a) ≫= k).
Proof. intros H. exact H. Qed.

Lemma emits_weaken {A} (P Q : event -> Prop) (m : M A) :
  (forall e, P e -> Q e) -> emits P m -> emits Q m.
Proof.
  intros HPQ Hm t0. destruct (Hm t0) as (new & H & HP). exists new.
  split; [exact H | by eapply Forall_impl].
Qed.

Ltac emits_step :=
  first
    [ apply emits_ret | apply emits_raise | apply emits_getattr | apply emits_unbound
    | apply emits_bound | apply emits_local
    | apply emits_emit; first [reflexivity | exact I]
    | apply emits_fmap
    | apply emits_bind; [|intros ?]
    | match goal with
      | |- emits _ (if ?b then _ else _) => destruct b
      | |- emits _ (match ?x with _ => _ end) => destruct x
      end ].

Ltac solve_emits := repeat emits_step.

Lemma resolve_seed_not_fit (w : World) (args : gmap string pyval) :
  emits not_fit (resolve_seed w args).
Proof. unfold resolve_seed, seed_everything. solve_emits. Qed.

Lemma build_loaders_not_fit (w : World) (args : gmap string pyval) :
  emits not_fit (build_loaders w args).
Proof.
  unfold build_loaders, new_normalization, new_augmentation, new_dataset,
    new_dataloader.
  solve_emits.
Qed.

Lemma build_model_not_fit (args : gmap string pyval) : emits not_fit (build_model args).
Proof. unfold build_model, new_model. solve_emits. Qed.

Lemma restore_weights_not_fit (w : World) (args : gmap string pyval)
    (model : option Module) :
  emits not_fit (restore_weights w args model).
Proof.
  unfold restore_weights, torch_load, load_weights, contains_key, subscript,
    load_state_dict.
  solve_emits.
Qed.

Lemma build_callbacks_not_fit (args : gmap string pyval) :
  emits not_fit (build_callbacks args).
Proof. unfold build_callbacks, new_callback. solve_emits. Qed.

(** ** Inverting runs *)

Lemma bind_inv_ok {A B} (m : M A) (k : A -> M B) (t t' : list event) (b : B) :
  (m ≫= k) t = (Ok b, t') ->
  exists a t1, m t = (Ok a, t1) /\ k a t1 = (Ok b, t').
Proof.
  rewrite bind_run. destruct (m t) as [[a|e] t1]; intros H;
    [exists a, t1; split; [reflexivity | exact H] | discriminate].
Qed.

Lemma bind_inv_raise {A B} (m : M A) (k : A -> M B) (t t' : list event) (e : exn) :
  (m ≫= k) t = (Raise e, t') ->
  m t = (Raise e, t') \/ exists a t1, m t = (Ok a, t1) /\ k a t1 = (Raise e, t').
Proof.
  rewrite bind_run. destruct (m t) as [[a|e'] t1]; intros H;
    [right; exists a, t1; split; [reflexivity | exact H] | left; by injection H as -> ->].
Qed.

(** A run of lines 132-137 that returns has recorded exactly the
    callbacks it returns, and returns some exactly when validation is on. *)
Lemma build_callbacks_inv (args : gmap string pyval) (t0 t : list event)
    (cbs : list Callback) :
  build_callbacks args t0 = (Ok cbs, t) ->
  t = (t0 ++ map EvCallback cbs)%list /\
  exists validation,
    args !! "validation" = Some validation /\
    (cbs = [] <-> truthy validation = false).
Proof.
  unfold build_callbacks. unfold_M. intros H.
  destruct (args !! "validation") as [validation|]; [|discriminate].
  destruct (truthy validation) eqn:Hv.
  - destruct (args !! "patience") as [patience|]; [|discriminate].
    destruct (args !! "monitor_metric") as [metric|];
      [|destruct (is_not_none patience); discriminate].
    destruct (args !! "monitor_metric_mode") as [mode|];
      [|destruct (is_not_none patience); discriminate].
    destruct (is_not_none patience); simpl in H; injection H as <- <-.
    + split; [by rewrite <- app_assoc|]. exists validation. split; [done|].
      split; intros Hx; simpl in Hx; congruence.
    + split; [done|]. exists validation. split; [done|].
      split; intros Hx; simpl in Hx; congruence.
  - injection H as <- <-. split; [by rewrite app_nil_r|]. exists validation.
    split; [done|]. split; congruence.
Qed.

(** What lines 126-148 have read and built when they return. *)
Lemma fit_model_inv (args : gmap string pyval)
    (loaders : DataLoader * option DataLoader) (model : option Module)
    (t0 t : list event) :
  fit_model args loaders model t0 = (Ok tt, t) ->
  exists m num_classes output_dir model_name cbs gpus epochs resume_from log_steps
         precision,
    model = Some m /\
    args !! "num_classes" = Some num_classes /\
    args !! "output_dir" = Some (PStr output_dir) /\
    args !! "model_name" = Some model_name /\
    args !! "gpus" = Some gpus /\
    args !! "epochs" = Some epochs /\
    args !! "resume_from" = Some resume_from /\
    args !! "log_steps" = Some log_steps /\
    args !! "precision" = Some precision /\
    let lit := mkLitModel m num_classes args in
    let lg := mkTensorBoardLogger (logs_path output_dir) model_name in
    let tr := mkTrainer lg gpus epochs "ddp" resume_from cbs true log_steps precision in
    let pre := (t0 ++ [EvLitModel lit; EvLogger lg; EvLogHyperparams lg args])%list in
    build_callbacks args pre = (Ok cbs, (pre ++ map EvCallback cbs)%list) /\
    t = (pre ++ map EvCallback cbs
             ++ [EvTrainer tr; EvFit tr lit (fst loaders) (snd loaders)])%list.
Proof.
  unfold fit_model, os_path_join. unfold_M. intros H.
  destruct model as [m|]; [|discriminate].
  destruct (args !! "num_classes") as [num_classes|]; [|discriminate].
  destruct (args !! "output_dir") as [output_dir|]; [|discriminate].
  destruct output_dir as [| | |output_dir|]; try discriminate.
  destruct (args !! "model_name") as [model_name|]; [|discriminate].
  destruct (build_callbacks args _) as [[cbs|e] tc] eqn:Hcb; [|discriminate].
  destruct (args !! "gpus") as [gpus|]; [|discriminate].
  destruct (args !! "epochs") as [epochs|]; [|discriminate].
  destruct (args !! "resume_from") as [resume_from|]; [|discriminate].
  destruct (args !! "log_steps") as [log_steps|]; [|discriminate].
  destruct (args !! "precision") as [precision|]; [|discriminate].
  injection H as <-.
  exists m, num_classes, output_dir, model_name, cbs, gpus, epochs, resume_from,
    log_steps, precision.
  do 9 (split; [reflexivity|]). cbv zeta.
  fold (logs_path output_dir) in *.
  pose proof (build_callbacks_inv _ _ _ _ Hcb) as [Htc _]. subst tc.
  rewrite <- !app_assoc in *. cbn [app] in *. split; [exact Hcb|].
  reflexivity.
Qed.

Lemma emits_run {A} (P : event -> Prop) (m : M A) (t0 t : list event) (r : result A) :
  emits P m -> m t0 = (r, t) -> exists new, t = (t0 ++ new)%list /\ Forall P new.
Proof. intros Hm H. destruct (Hm t0) as (new & Hn & HP). rewrite H in Hn. eauto. Qed.

Lemma emits_on_error_weaken {A} (P : event -> Prop) (m : M A) :
  emits P m -> emits_on_error P m.
Proof. intros Hm t0 e t H. by eapply emits_run. Qed.

Lemma emits_on_error_bind {A B} (P : event -> Prop) (m : M A) (k : A -> M B) :
  emits P m -> (forall a, emits_on_error P (k a)) -> emits_on_error P (m ≫= k).
Proof.
  intros Hm Hk t0 e t H. apply bind_inv_raise in H as [H|(a & t1 & H1 & H2)].
  - by eapply emits_run.
  - destruct (emits_run _ _ _ _ _ Hm H1) as (new1 & -> & HP1).
    destruct (Hk a _ _ _ H2) as (new2 & -> & HP2).
    exists (new1 ++ new2)%list. rewrite app_assoc. split; [done | by apply Forall_app].
Qed.

Lemma emits_on_error_emit (P : event -> Prop) (e : event) : emits_on_error P (emit e).
Proof. intros t0 e' t H. discriminate. Qed.

(** Lines 126-148 call [fit] last: when they raise, [fit] was not called. *)
Lemma fit_model_on_error (args : gmap string pyval)
    (loaders : DataLoader * option DataLoader) (model : option Module) :
  emits_on_error not_fit (fit_model args loaders model).
Proof.
  unfold fit_model, os_path_join.
  repeat (apply emits_on_error_bind;
          [first [ apply build_callbacks_not_fit | solve_emits ] | intros ?]).
  apply emits_on_error_emit.
Qed.

Lemma train_wasr_on_error (w : World) (args : gmap string pyval) :
  emits_on_error not_fit (train_wasr w args).
Proof.
  unfold train_wasr.
  apply emits_on_error_bind; [apply resolve_seed_not_fit | intros args'].
  apply emits_on_error_bind; [apply build_loaders_not_fit | intros loaders].
  apply emits_on_error_bind; [apply build_model_not_fit | intros model0].
  apply emits_on_error_bind; [apply restore_weights_not_fit | intros model].
  apply fit_model_on_error.
Qed.

(** Line 90, inverted. *)
Lemma resolve_seed_inv (w : World) (args : gmap string pyval) (t0 t : list event)
    (r : result (gmap string pyval)) :
  resolve_seed w args t0 = (r, t) ->
  match args !! "random_seed" with
  | Some requested =>
      exists seed, r = Ok (<["random_seed" := PInt seed]> args) /\
                   t = (t0 ++ [EvSeedEverything requested seed])%list
  | None => r = Raise (AttributeError "random_seed") /\ t = t0
  end.
Proof.
  unfold resolve_seed, seed_everything. unfold_M.
  destruct (args !! "random_seed") as [requested|]; intros [= <- <-]; eauto.
Qed.

(** A run of [train_wasr] that returns went through its five stages. *)
Lemma train_wasr_ok_inv (w : World) (args : gmap string pyval) (t0 t : list event) :
  train_wasr w args t0 = (Ok tt, t) ->
  exists args' t1 loaders t2 model0 t3 model t4,
    resolve_seed w args t0 = (Ok args', t1) /\
    build_loaders w args' t1 = (Ok loaders, t2) /\
    build_model args' t2 = (Ok model0, t3) /\
    restore_weights w args' model0 t3 = (Ok model, t4) /\
    fit_model args' loaders model t4 = (Ok tt, t).
Proof.
  unfold train_wasr. intros H.
  apply bind_inv_ok in H as (args' & t1 & H1 & H).
  apply bind_inv_ok in H as (loaders & t2 & H2 & H).
  apply bind_inv_ok in H as (model0 & t3 & H3 & H).
  apply bind_inv_ok in H as (model & t4 & H4 & H).
  by exists args', t1, loaders, t2, model0, t3, model, t4.
Qed.


(** ** The run as a whole *)



(** Everything a run of [train_wasr] that returns has read, built and
    recorded. *)
Lemma train_wasr_ok_facts (w : World) (args : gmap string pyval) (t0 t : list event) :
  train_wasr w args t0 = (Ok tt, t) ->
  exists requested seed loaders model0 m cbs num_classes output_dir model_name gpus
         epochs resume_from log_steps precision n2 n3 n4,
    let args' := <["random_seed" := PInt seed]> args in
    let lit := mkLitModel m num_classes args' in
    let lg := mkTensorBoardLogger (logs_path output_dir) model_name in
    let tr := mkTrainer lg gpus epochs "ddp" resume_from cbs true log_steps precision in
    let t1 := (t0 ++ [EvSeedEverything requested seed])%list in
    let t4 := (t1 ++ n2 ++ n3 ++ n4)%list in
    let pre := (t4 ++ [EvLitModel lit; EvLogger lg; EvLogHyperparams lg args'])%list in
    args !! "random_seed" = Some requested /\
    build_loaders w args' t1 = (Ok loaders, (t1 ++ n2)%list) /\
    build_model args' (t1 ++ n2)%list = (Ok model0, (t1 ++ n2 ++ n3)%list) /\
    restore_weights w args' model0 (t1 ++ n2 ++ n3)%list = (Ok (Some m), t4) /\
    build_callbacks args' pre = (Ok cbs, (pre ++ map EvCallback cbs)%list) /\
    args !! "num_classes" = Some num_classes /\
    args !! "output_dir" = Some (PStr output_dir) /\
    args !! "model_name" = Some model_name /\
    args !! "gpus" = Some gpus /\
    args !! "epochs" = Some epochs /\
    args !! "resume_from" = Some resume_from /\
    args !! "log_steps" = Some log_steps /\
    args !! "precision" = Some precision /\
    t = (pre ++ map EvCallback cbs
             ++ [EvTrainer tr; EvFit tr lit (fst loaders) (snd loaders)])%list.
Proof.
  intros H.
  apply train_wasr_ok_inv in H
    as (args' & t1 & loaders & t2 & model0 & t3 & model & t4 & H1 & H2 & H3 & H4 & H5).
  apply resolve_seed_inv in H1.
  destruct (args !! "random_seed") as [requested|] eqn:Hseed;
    [|by destruct H1 as [[=] _]].
  destruct H1 as (seed & [= ->] & ->).
  destruct (emits_run _ _ _ _ _ (build_loaders_not_fit w _) H2) as (n2 & -> & _).
  destruct (emits_run _ _ _ _ _ (build_model_not_fit _) H3) as (n3 & -> & _).
  destruct (emits_run _ _ _ _ _ (restore_weights_not_fit w _ model0) H4) as (n4 & -> & _).
  apply fit_model_inv in H5
    as (m & nc & dir & mn & cbs & gpus & epochs & rf & ls & prec & -> & L1 & L2 & L3 & L4
        & L5 & L6 & L7 & L8 & H5).
  cbv zeta in H5. destruct H5 as [Hcb ->].
  rewrite lookup_insert_ne in L1, L2, L3, L4, L5, L6, L7, L8 by done.
  exists requested, seed, loaders, model0, m, cbs, nc, dir, mn, gpus, epochs, rf, ls,
    prec, n2, n3, n4.
  cbv zeta. rewrite <- !app_assoc in *.
  repeat (split; [first [reflexivity | assumption]|]). reflexivity.
Qed.

(** X7.  When [train_wasr] returns, the trainer [fit] was called on was
    built from the configuration as it stands: precision, devices, epoch
    budget, resume checkpoint and logging cadence are the namespace's,
    the execution mode is ['ddp'] with synchronised batch norm, the
    logger is scoped by [output_dir/logs] and the model name, and the
    configuration was logged to that logger before the trainer was
    built. *)
Theorem trainer_wiring (w : World) (args : gmap string pyval) (t0 t : list event) :
  train_wasr w args t0 = (Ok tt, t) ->
  exists pre mid tr lit train_dl val_dl output_dir,
    t = (t0 ++ pre ++ [EvLogHyperparams (logger tr) (lit_args lit)] ++ mid
            ++ [EvTrainer tr; EvFit tr lit train_dl val_dl])%list /\
    args !! "precision" = Some (precision tr) /\
    args !! "gpus" = Some (gpus tr) /\
    args !! "epochs" = Some (max_epochs tr) /\
    args !! "resume_from" = Some (resume_from_checkpoint tr) /\
    args !! "log_steps" = Some (log_every_n_steps tr) /\
    accelerator tr = "ddp" /\
    sync_batchnorm tr = true /\
    args !! "model_name" = Some (name (logger tr)) /\
    args !! "output_dir" = Some (PStr output_dir) /\
    save_dir (logger tr) = logs_path output_dir /\
    args !! "num_classes" = Some (lit_num_classes lit).
Proof.
  intros H.
  apply train_wasr_ok_facts in H
    as (requested & seed & loaders & model0 & m & cbs & nc & dir & mn & gpus & epochs & rf
        & ls & prec & n2 & n3 & n4 & H).
  cbv zeta in H.
  destruct H as (_ & _ & _ & _ & _ & L1 & L2 & L3 & L4 & L5 & L6 & L7 & L8 & ->).
  match goal with
  | |- context [[EvTrainer ?tr; EvFit ?tr ?lit ?a ?b]] =>
      exists ([EvSeedEverything requested seed] ++ n2 ++ n3 ++ n4
                ++ [EvLitModel lit; EvLogger (logger tr)])%list,
        (map EvCallback cbs), tr, lit, a, b, dir
  end.
  split; [by rewrite <- !app_assoc|]. by repeat split.
Qed.

Lemma trainer_wiring_witness :
  exists pre mid tr lit train_dl val_dl output_dir,
    snd sample_run =
      ([] ++ pre ++ [EvLogHyperparams (logger tr) (lit_args lit)] ++ mid
          ++ [EvTrainer tr; EvFit tr lit train_dl val_dl])%list /\
    sample_args !! "precision" = Some (precision tr) /\
    sample_args !! "gpus" = Some (gpus tr) /\
    sample_args !! "epochs" = Some (max_epochs tr) /\
    sample_args !! "resume_from" = Some (resume_from_checkpoint tr) /\
    sample_args !! "log_steps" = Some (log_every_n_steps tr) /\
    accelerator tr = "ddp" /\
    sync_batchnorm tr = true /\
    sample_args !! "model_name" = Some (name (logger tr)) /\
    sample_args !! "output_dir" = Some (PStr output_dir) /\
    save_dir (logger tr) = logs_path output_dir /\
    sample_args !! "num_classes" = Some (lit_num_classes lit).
Proof.
  apply (trainer_wiring sample_world sample_args [] (snd sample_run)).
  vm_compute; reflexivity.
Defined.

Lemma bind_inv {A B} (m : M A) (k : A -> M B) (t t' : list event) (r : result B) :
  (m ≫= k) t = (r, t') ->
  (exists a t1, m t = (Ok a, t1) /\ k a t1 = (r, t')) \/
  (exists e, m t = (Raise e, t') /\ r = Raise e).
Proof.
  rewrite bind_run. destruct (m t) as [[a|e] t1]; intros H.
  - left. exists a, t1. split; [reflexivity | exact H].
  - right. exists e. by injection H as <- <-.
Qed.

Lemma fit_model_carries (args : gmap string pyval)
    (loaders : DataLoader * option DataLoader) (model : option Module) :
  emits (carries args) (fit_model args loaders model).
Proof.
  unfold fit_model, os_path_join, build_callbacks, new_callback. solve_emits.
Qed.

(** After the seed is resolved, every consumer of the configuration sees
    the resolved one, and nothing seeds again. *)
Lemma after_seed_carries (w : World) (args : gmap string pyval) :
  emits (carries args)
    (build_loaders w args ≫= fun loaders =>
     build_model args ≫= fun model =>
     restore_weights w args model ≫= fun model =>
     fit_model args loaders model).
Proof.
  apply emits_bind; [|intros loaders].
  { unfold build_loaders, new_normalization, new_augmentation, new_dataset,
      new_dataloader. solve_emits. }
  apply emits_bind; [|intros model0].
  { unfold build_model, new_model. solve_emits. }
  apply emits_bind; [|intros model].
  { unfold restore_weights, torch_load, load_weights, contains_key, subscript,
      load_state_dict. solve_emits. }
  apply fit_model_carries.
Qed.

(** X8.  [train_wasr] seeds once, before any other external call, with
    the [random_seed] of the namespace, and what the wrapper and the
    logger receive afterwards is the namespace with [random_seed]
    replaced by the seed that call returned.  Without the attribute it
    raises [AttributeError] before doing anything. *)
Theorem seed_comes_first (w : World) (args : gmap string pyval) (t0 t : list event)
    (r : result unit) :
  train_wasr w args t0 = (r, t) ->
  match args !! "random_seed" with
  | Some requested =>
      exists seed rest,
        t = (t0 ++ EvSeedEverything requested seed :: rest)%list /\
        Forall (carries (<["random_seed" := PInt seed]> args)) rest
  | None => r = Raise (AttributeError "random_seed") /\ t = t0
  end.
Proof.
  unfold train_wasr. intros H.
  apply bind_inv in H as [(args' & t1 & H1 & H)|(e & H1 & ->)];
    apply resolve_seed_inv in H1;
    destruct (args !! "random_seed") as [requested|].
  - destruct H1 as (seed & [= ->] & ->).
    eapply emits_run in H as (rest & -> & Hrest).
    + exists seed, rest. rewrite <- app_assoc. by split.
    + apply after_seed_carries.
  - by destruct H1 as [[=] _].
  - by destruct H1 as (seed & [=] & _).
  - destruct H1 as [[= ->] ->]. by split.
Qed.

Lemma seed_comes_first_witness :
  exists seed rest,
    snd sample_run = ([] ++ EvSeedEverything PNone seed :: rest)%list /\
    Forall (carries (<["random_seed" := PInt seed]> sample_args)) rest.
Proof.
  pose proof (seed_comes_first sample_world sample_args [] (snd sample_run) (Ok tt))
    as H.
  assert (Hseed : sample_args !! "random_seed" = Some PNone) by (vm_compute; reflexivity).
  rewrite Hseed in H. apply H. vm_compute; reflexivity.
Defined.







Lemma build_model_fresh (args : gmap string pyval) (t t' : list event)
    (model : option Module) (m : Module) :
  build_model args t = (Ok model, t') -> model = Some m -> state m = None.
Proof.
  unfold build_model, new_model. unfold_M. intros H ->.
  destruct (args !! "model") as [v|]; [|discriminate].
  destruct (eq_str v "wasr_resnet101").
  { destruct (args !! "num_classes"); [|discriminate].
    destruct (args !! "pretrained"); [|discriminate].
    destruct (args !! "imu"); [|discriminate]. by injection H as <- _. }
  destruct (eq_str v "wasr_resnet50").
  { destruct (args !! "num_classes"); [|discriminate].
    destruct (args !! "imu"); [|discriminate]. by injection H as <- _. }
  destruct (eq_str v "deeplab"); [|discriminate].
  destruct (args !! "num_classes"); [|discriminate].
  destruct (args !! "pretrained"); [|discriminate]. by injection H as <- _.
Qed.

(** X10.  Without [--pretrained-weights] (the attribute is [None]),
    [train_wasr] loads no file and no state: the network reaches the
    wrapper as its factory returned it. *)
Theorem no_weights_no_loading (w : World) (args : gmap string pyval)
    (t0 t : list event) (r : result unit) :
  train_wasr w args t0 = (r, t) ->
  args !! "pretrained_weights" = Some PNone ->
  exists new, t = (t0 ++ new)%list /\ Forall leaves_weights new.
Proof.
  intros H Hpw. unfold train_wasr in H.
  assert (Hs : emits leaves_weights (resolve_seed w args))
    by (unfold resolve_seed, seed_everything; solve_emits).
  apply bind_inv in H as [(args' & t1 & H1 & H)|(e & H1 & ->)];
    [|by eapply emits_run].
  destruct (emits_run _ _ _ _ _ Hs H1) as (n1 & -> & P1).
  assert (Hpw' : args' !! "pretrained_weights" = Some PNone).
  { apply resolve_seed_inv in H1. destruct (args !! "random_seed"); [|by destruct H1].
    destruct H1 as (seed & [= ->] & _). by rewrite lookup_insert_ne. }
  assert (Hl : emits leaves_weights (build_loaders w args'))
    by (unfold build_loaders, new_normalization, new_augmentation, new_dataset,
          new_dataloader; solve_emits).
  assert (Hb : emits leaves_weights (build_model args'))
    by (unfold build_model, new_model; solve_emits).
  apply bind_inv in H as [(loaders & t2 & H2 & H)|(e & H2 & ->)].
  2:{ destruct (emits_run _ _ _ _ _ Hl H2) as (n2 & -> & P2).
      exists (n1 ++ n2)%list. rewrite app_assoc. split; [done | by apply Forall_app]. }
  destruct (emits_run _ _ _ _ _ Hl H2) as (n2 & -> & P2).
  apply bind_inv in H as [(model0 & t3 & H3 & H)|(e & H3 & ->)].
  2:{ destruct (emits_run _ _ _ _ _ Hb H3) as (n3 & -> & P3).
      exists (n1 ++ n2 ++ n3)%list. rewrite !app_assoc.
      split; [done | by repeat (apply Forall_app; split)]. }
  destruct (emits_run _ _ _ _ _ Hb H3) as (n3 & -> & P3).
  rewrite bind_run in H. unfold restore_weights at 1 in H. unfold_M.
  rewrite Hpw' in H. simpl in H.
  assert (Hf : emits leaves_weights (fit_model args' loaders model0)).
  { destruct model0 as [[a st]|].
    - pose proof (build_model_fresh _ _ _ _ _ H3 eq_refl) as Hst. simpl in Hst. subst st.
      unfold fit_model, os_path_join, build_callbacks, new_callback. solve_emits.
    - unfold fit_model. solve_emits. }
  destruct (emits_run _ _ _ _ _ Hf H) as (n5 & -> & P5).
  exists (n1 ++ n2 ++ n3 ++ n5)%list. rewrite !app_assoc.
  split; [done | by repeat (apply Forall_app; split)].
Qed.

Lemma no_weights_no_loading_witness :
  exists new, snd sample_run = ([] ++ new)%list /\ Forall leaves_weights new.
Proof.
  apply (no_weights_no_loading sample_world sample_args [] (snd sample_run) (Ok tt)).
  - vm_compute; reflexivity.
  - vm_compute; reflexivity.
Defined.

(** ** Datasets and loaders (lines 92-108) *)

(** What a successful run of lines 92-108 has read, built and recorded. *)
Lemma build_loaders_inv (w : World) (args : gmap string pyval) (t0 t : list event)
    (train_dl : DataLoader) (val_dl : option DataLoader) :
  build_loaders w args t0 = (Ok (train_dl, val_dl), t) ->
  exists no_aug train_path l bs workers validation,
    args !! "no_augmentation" = Some no_aug /\
    args !! "train_file" = Some (PStr train_path) /\
    manifests w !! train_path = Some l /\
    args !! "batch_size" = Some bs /\
    args !! "workers" = Some workers /\
    args !! "validation" = Some validation /\
    train_dl =
      mkDataLoader
        (MaSTr1325Dataset (PStr train_path)
           (Given (if truthy no_aug then None else Some get_augmentation_transform))
           (Given PytorchHubNormalization) Omitted l)
        bs (Given true) workers (Given true) /\
    (if truthy validation then
       exists val_path l',
         args !! "val_file" = Some (PStr val_path) /\
         manifests w !! val_path = Some l' /\
         val_dl =
           Some (mkDataLoader
                   (MaSTr1325Dataset (PStr val_path) Omitted
                      (Given PytorchHubNormalization) (Given true) l')
                   bs Omitted workers Omitted)
     else val_dl = None) /\
    t = (t0 ++ [EvNormalization PytorchHubNormalization]
            ++ (if truthy no_aug then [] else [EvAugmentation get_augmentation_transform])
            ++ [EvDataset (dataset train_dl); EvDataLoader train_dl]
            ++ match val_dl with
               | Some v => [EvDataset (dataset v); EvDataLoader v]
               | None => []
               end)%list.
Proof.
  unfold build_loaders, new_dataset. unfold_M. intros H.
  destruct (args !! "no_augmentation") as [no_aug|] eqn:Hna; [|discriminate].
  destruct (args !! "train_file") as [train_file|] eqn:Htf;
    [|destruct (truthy no_aug); discriminate].
  destruct train_file as [| | |train_path|];
    try (destruct (truthy no_aug); discriminate).
  destruct (manifests w !! train_path) as [l|] eqn:Hl;
    [|destruct (truthy no_aug); discriminate].
  destruct (args !! "batch_size") as [bs|] eqn:Hbs;
    [|destruct (truthy no_aug); discriminate].
  destruct (args !! "workers") as [workers|] eqn:Hw;
    [|destruct (truthy no_aug); discriminate].
  destruct (args !! "validation") as [validation|] eqn:Hv;
    [|destruct (truthy no_aug); discriminate].
  exists no_aug, train_path, l, bs, workers, validation.
  do 6 (split; [first [reflexivity | assumption]|]).
  destruct (truthy validation).
  - destruct (args !! "val_file") as [val_file|] eqn:Hvf;
      [|destruct (truthy no_aug); discriminate].
    destruct val_file as [| | |val_path|];
      try (destruct (truthy no_aug); discriminate).
    destruct (manifests w !! val_path) as [l'|] eqn:Hl';
      [|destruct (truthy no_aug); discriminate].
    destruct (truthy no_aug); simpl in H; injection H as <- <- <-;
      (split; [reflexivity|]); (split; [by exists val_path, l'|]);
      simpl; rewrite <- ?app_assoc; reflexivity.
  - destruct (truthy no_aug); simpl in H; injection H as <- <- <-;
      (split; [reflexivity|]); (split; [reflexivity|]);
      simpl; rewrite <- ?app_assoc; reflexivity.
Qed.

(** X11.  When [train_wasr] returns, validation is all or nothing: the
    validation loader handed to [fit] and the callbacks handed to the
    trainer are both present when [validation] is set and both absent
    otherwise.  The validation loader reads [val_file] with the batch
    size, worker count and normalisation of the training loader, and
    with [include_original=True]. *)
Theorem validation_is_all_or_nothing (w : World) (args : gmap string pyval)
    (t0 t : list event) :
  train_wasr w args t0 = (Ok tt, t) ->
  exists validation pre tr lit train_dl val_dl,
    args !! "validation" = Some validation /\
    t = (t0 ++ pre ++ [EvTrainer tr; EvFit tr lit train_dl val_dl])%list /\
    (val_dl = None <-> truthy validation = false) /\
    (callbacks tr = [] <-> truthy validation = false) /\
    args !! "train_file" = Some (dataset_file (dataset train_dl)) /\
    args !! "batch_size" = Some (batch_size train_dl) /\
    args !! "workers" = Some (num_workers train_dl) /\
    forall v, val_dl = Some v ->
      args !! "val_file" = Some (dataset_file (dataset v)) /\
      batch_size v = batch_size train_dl /\
      num_workers v = num_workers train_dl /\
      normalize_t (dataset v) = normalize_t (dataset train_dl) /\
      include_original (dataset v) = Given true.
Proof.
  intros H.
  apply train_wasr_ok_facts in H
    as (requested & seed & loaders & model0 & m & cbs & nc & dir & mn & gpus & epochs & rf
        & ls & prec & n2 & n3 & n4 & H).
  cbv zeta in H.
  destruct H as (_ & Hl & _ & _ & Hcb & _ & _ & _ & _ & _ & _ & _ & _ & ->).
  destruct loaders as [train_dl val_dl].
  apply build_loaders_inv in Hl
    as (no_aug & p & l & bs & workers & validation & _ & Htf & _ & Hbs & Hw & Hv
        & -> & Hval & _).
  apply build_callbacks_inv in Hcb as (_ & validation' & Hv' & Hcbs).
  rewrite Hv in Hv'. injection Hv' as <-.
  rewrite lookup_insert_ne in Htf, Hbs, Hw, Hv by done.
  match goal with
  | |- context [((?t4 ++ ?three) ++ ?cb ++ [EvTrainer ?tr; EvFit ?tr ?lit ?a ?b])%list] =>
      exists validation,
        ([EvSeedEverything requested seed] ++ n2 ++ n3 ++ n4 ++ three ++ cb)%list,
        tr, lit, a, b
  end.
  split; [exact Hv|]. split; [by rewrite <- !app_assoc|]. simpl.
  split; [|split; [exact Hcbs|]].
  { destruct (truthy validation).
    - destruct Hval as (q & l' & _ & _ & ->). split; discriminate.
    - by rewrite Hval. }
  do 3 (split; [assumption|]).
  intros v ->. destruct (truthy validation); [|discriminate].
  destruct Hval as (q & l' & Hvf & _ & [= ->]).
  rewrite lookup_insert_ne in Hvf by done. by repeat split.
Qed.

Lemma validation_is_all_or_nothing_witness :
  exists validation pre tr lit train_dl val_dl,
    sample_args !! "validation" = Some validation /\
    snd sample_run = ([] ++ pre ++ [EvTrainer tr; EvFit tr lit train_dl val_dl])%list /\
    (val_dl = None <-> truthy validation = false) /\
    (callbacks tr = [] <-> truthy validation = false) /\
    sample_args !! "train_file" = Some (dataset_file (dataset train_dl)) /\
    sample_args !! "batch_size" = Some (batch_size train_dl) /\
    sample_args !! "workers" = Some (num_workers train_dl) /\
    forall v, val_dl = Some v ->
      sample_args !! "val_file" = Some (dataset_file (dataset v)) /\
      batch_size v = batch_size train_dl /\
      num_workers v = num_workers train_dl /\
      normalize_t (dataset v) = normalize_t (dataset train_dl) /\
      include_original (dataset v) = Given true.
Proof.
  apply (validation_is_all_or_nothing sample_world sample_args [] (snd sample_run)).
  vm_compute; reflexivity.
Defined.

(** X1.  Whatever the command line and whatever [LitModel] adds, a
    namespace [get_arguments] returns defines all 21 attributes of the
    script's options: [train_wasr] can read each of them. *)
Theorem parsed_namespace_complete (lit : list Action) (argv : list string)
    (args : gmap string pyval) :
  get_arguments lit argv = Parsed args -> has_attrs args script_attrs = true.
Proof.
  intros H. apply get_arguments_parse_args, parse_args_ok in H as [_ H2].
  unfold has_attrs. apply forallb_forall. intros d Hd.
  apply bool_decide_eq_true. rewrite script_attrs_dests in Hd.
  apply list_elem_of_In, list_elem_of_omap in Hd as (a & Ha & Hd).
  apply (H2 a d); [apply elem_of_app; by left | exact Hd].
Qed.

Lemma parsed_namespace_complete_witness :
  has_attrs sample_args script_attrs = true.
Proof.
  apply (parsed_namespace_complete (lit_actions sample_world) sample_argv).
  vm_compute; reflexivity.
Defined.

(** X2.  A namespace [get_arguments] returns has no attribute besides
    those of the script's options and those [LitModel] declares. *)
Theorem parsed_namespace_closed (lit : list Action) (argv : list string)
    (args : gmap string pyval) (d : string) :
  get_arguments lit argv = Parsed args ->
  is_Some (args !! d) ->
  d ∈ script_attrs \/ declares lit d = true.
Proof.
  intros H [v Hv]. apply get_arguments_parse_args, parse_args_ok in H as [H1 _].
  destruct (H1 d v Hv) as (a & Ha & Hd & _).
  apply elem_of_app in Ha as [Ha|Ha].
  - left. rewrite script_attrs_dests. apply list_elem_of_omap. eauto.
  - right. unfold declares. apply existsb_exists. exists a.
    split; [by apply list_elem_of_In | by apply bool_decide_eq_true].
Qed.

Lemma parsed_namespace_closed_witness :
  "epochs" ∈ script_attrs \/ declares (lit_actions sample_world) "epochs" = true.
Proof.
  apply (parsed_namespace_closed (lit_actions sample_world) sample_argv sample_args).
  - vm_compute; reflexivity.
  - exists (PInt 100). vm_compute; reflexivity.
Defined.






Lemma main_parsed (w : World) (argv : list string) (args : gmap string pyval) :
  get_arguments (lit_actions w) argv = Parsed args ->
  main w argv =
    match train_wasr w args [EvPrintArgs args] with
    | (Ok _, t) => (Returned, t)
    | (Raise e, t) => (Uncaught e, t)
    end.
Proof. intros H. unfold main. rewrite H. reflexivity. Qed.

(** X12.  [train_wasr] reads [args.epochs], which only [LitModel] can
    declare: if it declares no such attribute, no command line makes
    [main] return, and [fit] is never called. *)
Theorem epochs_must_be_declared (w : World) (argv : list string) :
  declares (lit_actions w) "epochs" = false ->
  fst (main w argv) <> Returned /\ Forall not_fit (snd (main w argv)).
Proof.
  intros Hlit.
  destruct (get_arguments (lit_actions w) argv) as [args| |err] eqn:Hp;
    [|unfold main; rewrite Hp; split; [discriminate | constructor]..].
  rewrite (main_parsed _ _ _ Hp).
  destruct (train_wasr w args [EvPrintArgs args]) as [[[]|e] t] eqn:H; simpl.
  - exfalso. apply train_wasr_ok_facts in H
      as (requested & seed & loaders & model0 & m & cbs & nc & dir & mn & gpus & epochs
          & rf & ls & prec & n2 & n3 & n4 & H).
    cbv zeta in H. destruct H as (_ & _ & _ & _ & _ & _ & _ & _ & _ & He & _).
    apply get_arguments_parse_args, parse_args_ok in Hp as [H1 _].
    destruct (H1 _ _ He) as (a & Ha & Hd & _).
    apply elem_of_app in Ha as [Ha|Ha]; [|by destruct (declares_false _ _ a Hlit Ha)].
    assert (Hin : "epochs" ∈ script_attrs)
      by (rewrite script_attrs_dests; apply list_elem_of_omap; eauto).
    apply list_elem_of_In in Hin. simpl in Hin.
    repeat (destruct Hin as [Hin|Hin]; [discriminate Hin|]). exact Hin.
  - split; [discriminate|].
    destruct (train_wasr_on_error w args _ _ _ H) as (new & -> & Hnew).
    by constructor.
Qed.

Lemma epochs_must_be_declared_witness :
  fst (main bare_world sample_argv) <> Returned /\
  Forall not_fit (snd (main bare_world sample_argv)).
Proof.
  apply (epochs_must_be_declared bare_world sample_argv). reflexivity.
Defined.

(** X13.  [main] prints the namespace as the parser returned it, before
    [train_wasr] resolves the seed: the first two external calls of a
    run are the echo of the unresolved namespace and the seeding.  When
    the parser exits instead, nothing has been called. *)
Theorem main_echoes_before_seeding (w : World) (argv : list string) :
  match get_arguments (lit_actions w) argv with
  | Parsed args =>
      exists requested seed rest,
        args !! "random_seed" = Some requested /\
        snd (main w argv) =
          EvPrintArgs args :: EvSeedEverything requested seed :: rest
  | o => main w argv = (ParserExit o, [])
  end.
Proof.
  destruct (get_arguments (lit_actions w) argv) as [args| |err] eqn:Hp;
    [|unfold main; rewrite Hp; reflexivity..].
  rewrite (main_parsed _ _ _ Hp).
  pose proof Hp as Hc. apply get_arguments_parse_args, parse_args_ok in Hc as [_ H2].
  destruct (H2 (add_argument "--random-seed" store type_int RANDOM_SEED None false)
              "random_seed") as [requested Hr];
    [apply elem_of_app; left; apply list_elem_of_In; simpl; tauto | reflexivity |].
  destruct (train_wasr w args [EvPrintArgs args]) as [r t] eqn:H.
  unfold train_wasr in H.
  apply bind_inv in H as [(args' & t1 & H1 & H)|(e & H1 & ->)];
    apply resolve_seed_inv in H1; rewrite Hr in H1;
    destruct H1 as (seed & Hs & ->); [|discriminate Hs].
  injection Hs as ->.
  destruct (emits_run _ _ _ _ _ (after_seed_carries w _) H) as (rest & -> & _).
  exists requested, seed, rest. split; [exact Hr|].
  by destruct r as [[]|e].
Qed.

(** ** Which exceptions a computation can raise *)













